(** * xrayreco.preprocessing: neighbour ordering and event normalisation

    A shallow embedding of [src/xrayreco/preprocessing.py].

    The module has one free function, [circular_crown_logical_coordinates],
    and the class [Xraydata] whose methods [input_events_data] and
    [target_data] build the feature and the target arrays.  Both lean on two
    collaborators imported from the [hexsample] package: the grid
    ([HexagonalGrid]) and the event file ([DigiInputFileCircular]).  Their
    code is not part of this repository, so they appear here as records of
    functions; every theorem quantifies over them.

    Numbers are modelled as the code has them: logical coordinates and ADC
    counts are Python/NumPy integers ([Z]); physical coordinates, hit
    positions and energies are NumPy [float64], modelled by the Standard
    Library's [spec_float] at precision 53 and maximal exponent 1024, with
    IEEE-754 subtraction [SFsub]. *)

From Stdlib Require Import ZArith Floats.SpecFloat.
From stdpp Require Import base list strings.

Local Open Scope Z_scope.

(** ** Python exceptions and the error monad *)

Inductive exn : Set :=
| IndexError                 (* NumPy: index out of bounds *)
| ValueError                 (* NumPy: shapes that cannot be broadcast or stacked *)
| Raised (name : string).    (* an exception class raised inside hexsample *)

Inductive result (A : Type) : Type :=
| Ok (a : A)
| Raise (e : exn).
Arguments Ok {A} a.
Arguments Raise {A} e.

#[global] Instance result_ret : MRet result := fun _ a => Ok a.
#[global] Instance result_bind : MBind result := fun _ _ f m =>
  match m with
  | Ok a => f a
  | Raise e => Raise e
  end.

Definition is_Ok {A} (m : result A) : Prop := ∃ a, m = Ok a.

(** ** float64 *)

Definition float := spec_float.
Definition prec : Z := 53.
Definition emax : Z := 1024.

Definition float_sub : float → float → float := SFsub prec emax.
Definition float_eqb : float → float → bool := SFeqb.
Definition float_of_int (n : Z) : float := binary_normalize prec emax n 0 false.
Definition zero : float := S754_zero false.

(** Neither an infinity nor a NaN. *)
Definition is_finite (x : float) : bool :=
  match x with
  | S754_zero _ | S754_finite _ _ _ => true
  | S754_infinity _ | S754_nan => false
  end.

(** ** The collaborators from hexsample *)

(** A logical coordinate: a [(column, row)] pair. *)
Abbreviation coordinate := (Z * Z)%type.

(** [HexagonalGrid]: the three methods the module calls.  [pixel_to_world]
    is NumPy arithmetic applied element by element, so the batched call on
    two arrays is the scalar function mapped over them
    ([pixel_to_world_array] below). *)
Record HexagonalGrid : Type := {
  neighbors : Z → Z → list coordinate;
  adc_channel : Z → Z → Z;
  pixel_to_world : Z → Z → float * float
}.

(** [DigiEventCircular]: the fields the module reads. *)
Record DigiEventCircular : Type := {
  column : Z;
  row : Z;
  pha : list Z
}.

(** [DigiInputFileCircular]: iterating the file yields its events (each
    [for ... in self.input_file] starts from the first one); [mc_column]
    returns a whole Monte Carlo column, or raises. *)
Record DigiInputFileCircular : Type := {
  events : list DigiEventCircular;
  mc_column : string → result (list float)
}.

(** ** NumPy primitives used by the module *)

(** [a[i]] for an integer [i]: negative indices count from the end, anything
    outside [-len, len) raises [IndexError]. *)
Definition ndarray_getitem {A} (a : list A) (i : Z) : result A :=
  let n := Z.of_nat (length a) in
  let j := if i <? 0 then i + n else i in
  if (0 <=? j) && (j <? n) then
    match a !! Z.to_nat j with
    | Some v => Ok v
    | None => Raise IndexError
    end
  else Raise IndexError.

(** [a[idx]] for a list of integers [idx] (integer array indexing). *)
Definition ndarray_take {A} (a : list A) (idx : list Z) : result (list A) :=
  mapM (ndarray_getitem a) idx.

(** [a - b] on one-dimensional float arrays, with NumPy broadcasting. *)
Definition ndarray_sub (a b : list float) : result (list float) :=
  if decide (length a = length b) then Ok (zip_with float_sub a b)
  else match a, b with
       | [a0], _ => Ok (map (float_sub a0) b)
       | _, [b0] => Ok (map (λ x, float_sub x b0) a)
       | _, _ => Raise ValueError
       end.

(** [a - s] for a scalar [s]. *)
Definition ndarray_sub_scalar (a : list float) (s : float) : list float :=
  map (λ x, float_sub x s) a.

(** [np.stack(rows, axis=0)]: refuses an empty sequence. *)
Definition np_stack {A} (rows : list A) : result (list A) :=
  match rows with
  | [] => Raise ValueError
  | _ => Ok rows
  end.

(** [np.array(rows)] on a list of two-dimensional arrays with the same
    number of columns: the rows must agree in length (NumPy 1.24 and later
    raise [ValueError] on a ragged sequence). *)
Definition np_array {A} (rows : list (list A)) : result (list (list A)) :=
  match rows with
  | [] => Ok []
  | r :: rs =>
      if forallb (λ r', Nat.eqb (length r') (length r)) rs then Ok rows
      else Raise ValueError
  end.

(** [zip(a, b, c)]. *)
Definition zip3 {A B C} (a : list A) (b : list B) (c : list C) : list (A * B * C) :=
  zip (zip a b) c.

(** [grid.pixel_to_world(np.array(cols), np.array(rows))]. *)
Definition pixel_to_world_array (grid : HexagonalGrid) (cols rows : list Z)
  : list float * list float :=
  let xy := zip_with (pixel_to_world grid) cols rows in
  (map fst xy, map snd xy).

(** ** circular_crown_logical_coordinates (lines 13-34) *)

Definition circular_crown_logical_coordinates (column row : Z) (grid : HexagonalGrid)
  : list coordinate :=
  [(column, row)] ++ map (λ '(c, r), (c, r)) (neighbors grid column row).

(** ** Xraydata.input_events_data (lines 92-124) *)

(** One entry of a feature row: signal, x-offset, y-offset. *)
Abbreviation feature_entry := (float * float * float)%type.

(** Lines 109-111: the ADC channels of the event's pixels, in the order of
    [coordinates]. *)
Definition adc_channel_order (grid : HexagonalGrid) (event : DigiEventCircular)
  : list Z :=
  let coordinates :=
    circular_crown_logical_coordinates (column event) (row event) grid in
  map (λ '(_col, _row), adc_channel grid _col _row) coordinates.

(** Line 113: the re-ordered PHA list of one event. *)
Definition reordered_pha (grid : HexagonalGrid) (event : DigiEventCircular)
  : result (list Z) :=
  ndarray_take (pha event) (adc_channel_order grid event).

(** The body of the loop, lines 109-122: the array appended to
    [events_data].  Stacking the tuples [(pha, dx, dy)] promotes the integer
    PHA to float64. *)
Definition event_features (grid : HexagonalGrid) (event : DigiEventCircular)
  : result (list feature_entry) :=
  let coordinates :=
    circular_crown_logical_coordinates (column event) (row event) grid in
  pha' ← reordered_pha grid event;
  let x_logical := map fst coordinates in
  let y_logical := map snd coordinates in
  let '(x, y) := pixel_to_world_array grid x_logical y_logical in
  x0 ← ndarray_getitem x 0;
  y0 ← ndarray_getitem y 0;
  np_stack (zip3 (map float_of_int pha')
                 (ndarray_sub_scalar x x0) (ndarray_sub_scalar y y0)).

Definition input_events_data (grid : HexagonalGrid) (file : DigiInputFileCircular)
  : result (list (list feature_entry)) :=
  events_data ← mapM (event_features grid) (events file);
  np_array events_data.

(** ** Xraydata.target_data (lines 126-151) *)

(** One target row: energy, x-offset, y-offset. *)
Abbreviation target_row := (float * float * float)%type.

Definition target_data (grid : HexagonalGrid) (file : DigiInputFileCircular)
  : result (list target_row) :=
  energy_target_array ← mc_column file "energy";
  x_hit ← mc_column file "absx";
  y_hit ← mc_column file "absy";
  let cols := map column (events file) in
  let rows := map row (events file) in
  let '(x_max, y_max) := pixel_to_world_array grid cols rows in
  dx ← ndarray_sub x_hit x_max;
  dy ← ndarray_sub y_hit y_max;
  _ ← np_stack (zip dx dy);
  np_stack (zip3 energy_target_array dx dy).

(** ** Quantities the statements speak about *)

Definition sum_Z (l : list Z) : Z := foldr Z.add 0 l.

(** The sum of a raw per-channel array restricted to a collection of
    channels: every channel [k] of the array counts once if it is one of
    [chans], and not at all otherwise. *)
Definition restricted_sum (raw : list Z) (chans : list Z) : Z :=
  sum_Z (imap (λ k v, if bool_decide (Z.of_nat k ∈ chans) then v else 0) raw).

(** A channel index that addresses an entry of [raw] without wrapping. *)
Definition channel_of (raw : list Z) (ch : Z) : Prop :=
  0 ≤ ch < Z.of_nat (length raw).

(** An index NumPy accepts for [raw]: in range, possibly counted from the
    end. *)
Definition valid_index {A} (raw : list A) (i : Z) : Prop :=
  - Z.of_nat (length raw) ≤ i < Z.of_nat (length raw).

(** The physical position of a pixel, and of the central pixel of an event. *)
Definition world (grid : HexagonalGrid) (p : coordinate) : float * float :=
  pixel_to_world grid p.1 p.2.
Definition center_world (grid : HexagonalGrid) (event : DigiEventCircular)
  : float * float :=
  pixel_to_world grid (column event) (row event).

(** The logical coordinates feature assembly works on (line 109). *)
Definition event_coordinates (grid : HexagonalGrid) (event : DigiEventCircular)
  : list coordinate :=
  circular_crown_logical_coordinates (column event) (row event) grid.

(** The signal, x-offset and y-offset of a feature entry or target row. *)
Definition signal (e : feature_entry) : float := e.1.1.
Definition x_offset (e : float * float * float) : float := e.1.2.
Definition y_offset (e : float * float * float) : float := e.2.

(** ** Grids and files used in the examples

    A small stand-in for the grid service, used where a statement is
    evaluated on concrete data: a 10 x 10 sensor in the odd-r offset
    convention, reporting the neighbours that fall on the sensor starting
    from the upper-right one and proceeding clockwise; seven read-out
    channels, so that a pixel and its six neighbours never share one. *)

Definition on_sensor (numcolumns numrows : Z) (p : coordinate) : bool :=
  (0 <=? p.1) && (p.1 <? numcolumns) && (0 <=? p.2) && (p.2 <? numrows).

Definition odd_r_offsets (r : Z) : list coordinate :=
  if Z.even r
  then [(0, -1); (1, 0); (0, 1); (-1, 1); (-1, 0); (-1, -1)]
  else [(1, -1); (1, 0); (1, 1); (0, 1); (-1, 0); (0, -1)].

Definition sample_grid : HexagonalGrid := {|
  neighbors c r :=
    List.filter (on_sensor 10 10) (map (λ '(dc, dr), (c + dc, r + dr)) (odd_r_offsets r));
  adc_channel c r := (c - (r - r mod 2) / 2 + 3 * r) mod 7;
  pixel_to_world c r := (float_of_int (2 * c + r mod 2), float_of_int (- 3 * r))
|}.

(** The same grid reporting every neighbourhood rotated by [k] places. *)
Definition reporting_rotated (k : nat) (grid : HexagonalGrid) : HexagonalGrid := {|
  neighbors c r := rotate k (neighbors grid c r);
  adc_channel := adc_channel grid;
  pixel_to_world := pixel_to_world grid
|}.

Definition interior_event : DigiEventCircular :=
  {| column := 5; row := 5; pha := [10; 20; 30; 40; 50; 60; 70] |}.

Definition corner_event : DigiEventCircular :=
  {| column := 0; row := 0; pha := [10; 20; 30; 40; 50; 60; 70] |}.

Definition float_column (l : list Z) : result (list float) := Ok (map float_of_int l).

(** A simulated file: two events and their Monte Carlo truth. *)
Definition simulated_file : DigiInputFileCircular := {|
  events := [interior_event;
             {| column := 4; row := 4; pha := [7; 6; 5; 4; 3; 2; 1] |}];
  mc_column name :=
    if String.eqb name "energy" then float_column [5900; 5900]
    else if String.eqb name "absx" then float_column [11; 9]
    else if String.eqb name "absy" then float_column [-15; -12]
    else Raise (Raised "KeyError")
|}.

(** A simulated file without events. *)
Definition empty_file : DigiInputFileCircular := {|
  events := [];
  mc_column name :=
    if String.eqb name "energy" then float_column []
    else if String.eqb name "absx" then float_column []
    else if String.eqb name "absy" then float_column []
    else Raise (Raised "KeyError")
|}.

(** A file of detector data: no Monte Carlo column can be read. *)
Definition detector_file : DigiInputFileCircular := {|
  events := [interior_event];
  mc_column name := Raise (Raised "KeyError")
|}.

(** ** Xraydata.highest_pixel_coordinates (lines 77-90)

    The loop appends one x and one y per event to two Python lists and
    returns the pair of lists. *)

Definition highest_pixel_coordinates (grid : HexagonalGrid) (file : DigiInputFileCircular)
  : list float * list float :=
  foldl (λ '(x, y) evt,
           let '(x_tmp, y_tmp) := pixel_to_world grid (column evt) (row evt) in
           (x ++ [x_tmp], y ++ [y_tmp]))
        ([], []) (events file).

(** ** Further quantities *)

(** The feature entry of one pixel [p] of an event: its signal read at the
    pixel's ADC channel, and its physical position relative to the central
    pixel. *)
Definition pixel_entry (grid : HexagonalGrid) (event : DigiEventCircular)
    (p : coordinate) : result feature_entry :=
  s ← ndarray_getitem (pha event) (adc_channel grid p.1 p.2);
  Ok (float_of_int s,
      float_sub (world grid p).1 (center_world grid event).1,
      float_sub (world grid p).2 (center_world grid event).2).

(** Two one-dimensional arrays NumPy can combine element by element. *)
Definition broadcastable {A B} (a : list A) (b : list B) : Prop :=
  length a = length b ∨ length a = 1%nat ∨ length b = 1%nat.

(** A grid that differs from [grid] only in the neighbours it reports. *)
Definition same_geometry (g1 g2 : HexagonalGrid) : Prop :=
  adc_channel g1 = adc_channel g2 ∧ pixel_to_world g1 = pixel_to_world g2.

(** A grid whose channel numbers are given counting from the end of the
    signal array, and a simulated file whose [absx] column has one entry
    too many. *)
Definition end_counting_grid : HexagonalGrid := {|
  neighbors := neighbors sample_grid;
  adc_channel c r := adc_channel sample_grid c r - 7;
  pixel_to_world := pixel_to_world sample_grid
|}.

Definition misaligned_file : DigiInputFileCircular := {|
  events := events simulated_file;
  mc_column name :=
    if String.eqb name "absx" then float_column [11; 9; 7]
    else mc_column simulated_file name
|}.

(** A file whose second event carries only three PHA values. *)
Definition short_pha_file : DigiInputFileCircular := {|
  events := [interior_event; {| column := 4; row := 4; pha := [1; 2; 3] |}];
  mc_column := mc_column simulated_file
|}.

(** ** Sums of float64 values *)

Definition float_add : float → float → float := SFadd prec emax.

(** [sum(values)]: the additions are made from left to right, starting
    from zero. *)
Definition float_sum (values : list float) : float := foldl float_add zero values.

(** The position, counted from the start, of the entry of [raw] that the
    index [ch] addresses. *)
Definition array_position {A} (raw : list A) (ch : Z) : Z :=
  if ch <? 0 then ch + Z.of_nat (length raw) else ch.

(** A grid that numbers the channel of pixel (5, 4) from the end of the
    signal array, and an event with one very large signal. *)
Definition aliasing_grid : HexagonalGrid := {|
  neighbors := neighbors sample_grid;
  adc_channel c r := if (c =? 5) && (r =? 4) then -3 else adc_channel sample_grid c r;
  pixel_to_world := pixel_to_world sample_grid
|}.

Definition large_signal_event : DigiEventCircular :=
  {| column := 5; row := 5; pha := [0; 0; 1; 0; 2 ^ 53; 1; 0] |}.

(** * Properties *)

(** ** float64 subtraction *)

Lemma float_sub_diag (x : float) : is_finite x = true → float_sub x x = zero.
Proof.
  destruct x as [s|s| |s m e]; try discriminate; intros _.
  - by destruct s.
  - unfold float_sub, SFsub. rewrite Z.min_id. unfold shl_align.
    rewrite Z.sub_diag. simpl fst. by rewrite ?Z.sub_diag.
Qed.

(** IEEE equality of two finite numbers: the operands are two zeros or the
    same number. *)
Lemma float_eqb_finite (x y : float) :
  float_eqb x y = true → is_finite x = true →
  (∃ s s', x = S754_zero s ∧ y = S754_zero s') ∨ (x = y ∧ is_finite y = true).
Proof.
  unfold float_eqb, SFeqb.
  destruct x as [s|s| |s m e], y as [s'|s'| |s' m' e']; simpl;
    try discriminate; intros Heq _;
    try (left; eauto; fail);
    try (by destruct s); try (by destruct s').
  right. split; [|done]. revert Heq.
  change (Pos.compare_cont Eq m m') with (Pos.compare m m').
  destruct s, s'; try discriminate;
    destruct (Z.compare_spec e e') as [->| |]; try discriminate;
    destruct (Pos.compare_spec m m') as [->| |]; try discriminate; reflexivity.
Qed.

Lemma float_sub_eqb_zero (x y : float) :
  float_eqb x y = true → is_finite x = true →
  float_eqb (float_sub x y) zero = true.
Proof.
  intros Heq Hfin.
  destruct (float_eqb_finite x y Heq Hfin) as [(s & s' & -> & ->)|[<- _]].
  - by destruct s, s'.
  - by rewrite float_sub_diag.
Qed.

(** ** The error monad on lists *)

Lemma mapM_cons {A B} (f : A → result B) (x : A) (l : list A) :
  mapM f (x :: l)
  = match f x with
    | Ok y => match mapM f l with Ok k => Ok (y :: k) | Raise e => Raise e end
    | Raise e => Raise e
    end.
Proof. reflexivity. Qed.

Lemma mapM_Ok {A B} (f : A → result B) (l : list A) (k : list B) :
  mapM f l = Ok k ↔ Forall2 (λ x y, f x = Ok y) l k.
Proof.
  revert k. induction l as [|x l IH]; intros k.
  - split; [intros [= <-]; constructor | by inversion 1].
  - rewrite mapM_cons. split.
    + destruct (f x) as [y|e] eqn:Hx; [|done].
      destruct (mapM f l) as [k'|e] eqn:Hl; [|done].
      intros [= <-]. constructor; [done | by apply IH].
    + inversion 1 as [|? y ? k' Hx Hl]; subst.
      apply IH in Hl. by rewrite Hx, Hl.
Qed.

Lemma mapM_is_Ok {A B} (f : A → result B) (l : list A) :
  Forall (λ x, is_Ok (f x)) l → is_Ok (mapM f l).
Proof.
  induction 1 as [|x l [y Hy] _ [k Hk]]; [by exists []|].
  exists (y :: k). apply mapM_Ok. constructor; [done | by apply mapM_Ok].
Qed.

(** ** NumPy indexing *)

Lemma ndarray_getitem_valid {A} (raw : list A) (i : Z) :
  valid_index raw i → is_Ok (ndarray_getitem raw i).
Proof.
  unfold valid_index, ndarray_getitem. intros Hi.
  set (j := if i <? 0 then _ else _).
  assert (0 ≤ j < Z.of_nat (length raw)) as Hj by (subst j; destruct (Z.ltb_spec i 0); lia).
  destruct (Z.leb_spec 0 j), (Z.ltb_spec j (Z.of_nat (length raw))); try lia. simpl.
  destruct (lookup_lt_is_Some_2 raw (Z.to_nat j)) as [v ->]; [lia |]. by exists v.
Qed.

Lemma ndarray_getitem_channel (raw : list Z) (ch : Z) :
  channel_of raw ch →
  ∃ v, raw !! Z.to_nat ch = Some v ∧ ndarray_getitem raw ch = Ok v.
Proof.
  unfold channel_of, ndarray_getitem. intros Hch.
  destruct (Z.ltb_spec ch 0); [lia |].
  destruct (Z.leb_spec 0 ch), (Z.ltb_spec ch (Z.of_nat (length raw))); try lia. simpl.
  destruct (lookup_lt_is_Some_2 raw (Z.to_nat ch)) as [v Hv]; [lia |].
  exists v. by rewrite Hv.
Qed.

(** ** The neighbour-order resolver *)

Section Resolver.
Variable grid : HexagonalGrid.
Variables c r : Z.

(** The list comprehension [[(c, r) for c, r in ...]] rebuilds each pair. *)
Lemma rebuild_pairs (l : list coordinate) : map (λ '(c, r), (c, r)) l = l.
Proof. induction l as [|[a b] l IH]; [done |]. simpl. f_equal. exact IH. Qed.

Lemma crown_unfold :
  circular_crown_logical_coordinates c r grid = (c, r) :: neighbors grid c r.
Proof. unfold circular_crown_logical_coordinates. by rewrite rebuild_pairs. Qed.

Lemma crown_length :
  length (circular_crown_logical_coordinates c r grid)
  = S (length (neighbors grid c r)).
Proof. by rewrite crown_unfold. Qed.

(** C10. For every input coordinate, edge and corner pixels included, the
    resolver is the one-element list [(column, row)] followed by what
    [grid.neighbors] reports, verbatim and in its order; its length is
    one plus the number of reported neighbours.  No neighbour count makes
    it fail: the function is total and has no error outcome. *)
Theorem crown_is_center_then_reported_neighbors :
  circular_crown_logical_coordinates c r grid = [(c, r)] ++ neighbors grid c r
  ∧ length (circular_crown_logical_coordinates c r grid)
    = (1 + length (neighbors grid c r))%nat.
Proof. split; [apply crown_unfold | apply crown_length]. Qed.

(** C2. For an interior coordinate (exactly six reported neighbours) the
    output has length 7, its element 0 is the centre and its elements 1-6
    are a permutation of the reported neighbours. *)
Theorem crown_interior_shape :
  length (neighbors grid c r) = 6%nat →
  length (circular_crown_logical_coordinates c r grid) = 7%nat
  ∧ circular_crown_logical_coordinates c r grid !! 0%nat = Some (c, r)
  ∧ take 6 (drop 1 (circular_crown_logical_coordinates c r grid))
    ≡ₚ neighbors grid c r.
Proof.
  intros Hsix. rewrite crown_unfold. simpl. rewrite Hsix.
  repeat split. rewrite <- Hsix at 1. by rewrite firstn_all.
Qed.

(** C3 (amended). When the grid reports a number of neighbours other than
    six, the resolver still returns: the centre followed by the reported
    neighbours, a list whose length is one plus their number and so is
    not 7. *)
Theorem crown_incomplete_neighborhood_returned :
  length (neighbors grid c r) ≠ 6%nat →
  circular_crown_logical_coordinates c r grid = (c, r) :: neighbors grid c r
  ∧ length (circular_crown_logical_coordinates c r grid)
    = S (length (neighbors grid c r))
  ∧ length (circular_crown_logical_coordinates c r grid) ≠ 7%nat.
Proof.
  intros Hn. rewrite crown_length. repeat split; [apply crown_unfold | lia].
Qed.
End Resolver.

Lemma crown_interior_shape_witness :
  length (neighbors sample_grid 5 5) = 6%nat
  ∧ length (circular_crown_logical_coordinates 5 5 sample_grid) = 7%nat
  ∧ circular_crown_logical_coordinates 5 5 sample_grid !! 0%nat = Some (5, 5)
  ∧ take 6 (drop 1 (circular_crown_logical_coordinates 5 5 sample_grid))
    ≡ₚ neighbors sample_grid 5 5.
Proof.
  split; [reflexivity |].
  apply (crown_interior_shape sample_grid 5 5). reflexivity.
Defined.

Lemma crown_incomplete_neighborhood_returned_witness :
  length (neighbors sample_grid 0 0) ≠ 6%nat
  ∧ circular_crown_logical_coordinates 0 0 sample_grid
    = (0, 0) :: neighbors sample_grid 0 0
  ∧ length (circular_crown_logical_coordinates 0 0 sample_grid)
    = S (length (neighbors sample_grid 0 0))
  ∧ length (circular_crown_logical_coordinates 0 0 sample_grid) ≠ 7%nat.
Proof.
  assert (H : length (neighbors sample_grid 0 0) ≠ 6%nat) by (vm_compute; lia).
  split; [exact H |].
  apply (crown_incomplete_neighborhood_returned sample_grid 0 0 H).
Defined.

(** C3, as stated, fails at the grid corner (0, 0): the grid reports two
    neighbours, and the resolver returns a three-element list; assembling
    the features of an event centred there returns a three-entry array
    rather than signalling a condition. *)
Lemma crown_corner_not_signalled :
  length (neighbors sample_grid 0 0) = 2%nat
  ∧ circular_crown_logical_coordinates 0 0 sample_grid = [(0, 0); (1, 0); (0, 1)]
  ∧ ∃ entries, event_features sample_grid corner_event = Ok entries
               ∧ length entries = 3%nat.
Proof.
  split; [reflexivity |]. split; [reflexivity |].
  eexists. split; [vm_compute; reflexivity | reflexivity].
Qed.

(** C1, as stated, fails: two grid services that report the six neighbours
    of (5, 5) in orders that are rotations of one another make the resolver
    return different lists. *)
Lemma crown_depends_on_reporting_order :
  length (neighbors sample_grid 5 5) = 6%nat
  ∧ neighbors (reporting_rotated 1 sample_grid) 5 5
    = rotate 1 (neighbors sample_grid 5 5)
  ∧ circular_crown_logical_coordinates 5 5 (reporting_rotated 1 sample_grid)
    ≠ circular_crown_logical_coordinates 5 5 sample_grid.
Proof.
  split; [reflexivity |]. split; [reflexivity |].
  vm_compute. discriminate.
Qed.

(** C1 (amended). The output is the centre followed by the neighbours
    exactly as the grid reports them, in the reported order; nothing is
    classified or reordered.  So when a second grid reports the neighbours
    of [(c, r)] rotated by [k] places, positions 1.. of its output are the
    first grid's reported list rotated by [k] places; the two outputs
    coincide exactly when the rotation leaves the reported list unchanged;
    and positions 1.. are in a given order, the compass order included,
    exactly when the grid reports the neighbours in that order. *)
Theorem crown_follows_reporting_order (g1 g2 : HexagonalGrid) (c r : Z) (k : nat) :
  neighbors g2 c r = rotate k (neighbors g1 c r) →
  circular_crown_logical_coordinates c r g1 = (c, r) :: neighbors g1 c r
  ∧ circular_crown_logical_coordinates c r g2
    = (c, r) :: rotate k (neighbors g1 c r)
  ∧ (circular_crown_logical_coordinates c r g2
     = circular_crown_logical_coordinates c r g1
     ↔ rotate k (neighbors g1 c r) = neighbors g1 c r)
  ∧ (∀ compass : list coordinate,
       drop 1 (circular_crown_logical_coordinates c r g2) = compass
       ↔ neighbors g2 c r = compass).
Proof.
  intros Hrot. rewrite !crown_unfold, Hrot. simpl. rewrite drop_0.
  split; [reflexivity |]. split; [reflexivity |].
  split; [split; [by intros [= ->] | by intros ->] | done].
Qed.

Lemma crown_follows_reporting_order_witness :
  neighbors (reporting_rotated 2 sample_grid) 5 5
  = rotate 2 (neighbors sample_grid 5 5)
  ∧ circular_crown_logical_coordinates 5 5 sample_grid
    = (5, 5) :: neighbors sample_grid 5 5
  ∧ circular_crown_logical_coordinates 5 5 (reporting_rotated 2 sample_grid)
    = (5, 5) :: rotate 2 (neighbors sample_grid 5 5).
Proof.
  split; [reflexivity |].
  destruct (crown_follows_reporting_order sample_grid (reporting_rotated 2 sample_grid)
              5 5 2 eq_refl) as (Hfirst & Hsecond & _).
  split; [exact Hfirst | exact Hsecond].
Defined.

(** ** Feature assembly *)

Lemma ndarray_getitem_head {A} (x : A) (l : list A) :
  ndarray_getitem (x :: l) 0 = Ok x.
Proof.
  unfold ndarray_getitem. simpl length.
  destruct (Z.ltb_spec 0 (Z.of_nat (S (length l)))); [done | lia].
Qed.

Lemma ndarray_getitem_map_head {A B} (f : A → B) (x : A) (l : list A) :
  ndarray_getitem (map f (x :: l)) 0 = Ok (f x).
Proof. apply ndarray_getitem_head. Qed.

Lemma lookup_zip3 {A B C} (a : list A) (b : list B) (c : list C) i x y z :
  a !! i = Some x → b !! i = Some y → c !! i = Some z →
  zip3 a b c !! i = Some (x, y, z).
Proof.
  intros Ha Hb Hc. unfold zip3. apply lookup_zip_with_Some.
  exists (x, y), z. repeat split; [|done].
  apply lookup_zip_with_Some. by exists x, y.
Qed.

Section FeatureAssembly.
Variable grid : HexagonalGrid.
Variable event : DigiEventCircular.

Lemma pixel_to_world_array_coords (l : list coordinate) :
  pixel_to_world_array grid (map fst l) (map snd l)
  = (map (λ p, (world grid p).1) l, map (λ p, (world grid p).2) l).
Proof.
  unfold pixel_to_world_array.
  assert (zip_with (pixel_to_world grid) (map fst l) (map snd l) = map (world grid) l)
    as -> by (induction l as [|[a b] l IH]; simpl; [done | by rewrite IH]).
  f_equal; induction l as [|p l IH]; simpl; congruence.
Qed.

Lemma adc_channel_order_coords :
  adc_channel_order grid event
  = map (λ p, adc_channel grid p.1 p.2) (event_coordinates grid event).
Proof.
  unfold adc_channel_order, event_coordinates.
  induction (circular_crown_logical_coordinates _ _ _) as [|[a b] l IH];
    simpl; [done | by rewrite IH].
Qed.

Lemma reordered_pha_length (pha' : list Z) :
  reordered_pha grid event = Ok pha' →
  length pha' = length (event_coordinates grid event).
Proof.
  unfold reordered_pha, ndarray_take. rewrite mapM_Ok, adc_channel_order_coords.
  intros H. apply Forall2_length in H. by rewrite length_map in H.
Qed.

(** What the loop body appends, once the gather has succeeded. *)
Lemma event_features_unfold (pha' : list Z) :
  reordered_pha grid event = Ok pha' →
  event_features grid event
  = Ok (zip3 (map float_of_int pha')
          (map (λ p, float_sub (world grid p).1 (center_world grid event).1)
               (event_coordinates grid event))
          (map (λ p, float_sub (world grid p).2 (center_world grid event).2)
               (event_coordinates grid event))).
Proof.
  intros Hpha. pose proof (reordered_pha_length _ Hpha) as Hlen.
  unfold event_features. rewrite Hpha.
  change (circular_crown_logical_coordinates (column event) (row event) grid)
    with (event_coordinates grid event) in *.
  unfold mbind, result_bind. rewrite pixel_to_world_array_coords.
  revert Hlen. unfold event_coordinates. rewrite crown_unfold. intros Hlen.
  rewrite !ndarray_getitem_map_head.
  unfold ndarray_sub_scalar. rewrite !map_map.
  destruct pha' as [|s pha']; [done |]. reflexivity.
Qed.

Lemma event_features_reordered (entries : list feature_entry) :
  event_features grid event = Ok entries →
  ∃ pha', reordered_pha grid event = Ok pha'.
Proof.
  unfold event_features. destruct (reordered_pha grid event) as [pha'|e]; [eauto | done].
Qed.

Lemma reordered_pha_is_Ok :
  Forall (valid_index (pha event)) (adc_channel_order grid event) →
  is_Ok (reordered_pha grid event).
Proof.
  intros Hvalid. apply mapM_is_Ok.
  eapply Forall_impl; [exact Hvalid |]. apply ndarray_getitem_valid.
Qed.

Lemma event_features_is_Ok :
  Forall (valid_index (pha event)) (adc_channel_order grid event) →
  ∃ entries, event_features grid event = Ok entries
             ∧ length entries = length (event_coordinates grid event).
Proof.
  intros Hvalid. destruct (reordered_pha_is_Ok Hvalid) as [pha' Hpha].
  pose proof (reordered_pha_length _ Hpha) as Hlen.
  eexists. split; [by apply event_features_unfold |].
  unfold zip3. rewrite !length_zip_with, !length_map. lia.
Qed.

(** C4. Feature assembly gathers: provided every channel index is one
    NumPy accepts for the event's signal array, the re-ordered signal
    array exists, has one entry per coordinate of the resolver's output,
    and entry [i] is [event.pha[adc_channel(coordinates[i])]]; the
    signal of entry [i] of the emitted feature row is that value (as
    float64).  The order of the output is the order of the coordinates,
    whatever the channel wiring. *)
Theorem reordered_pha_is_gather :
  Forall (valid_index (pha event)) (adc_channel_order grid event) →
  ∃ pha' entries,
    reordered_pha grid event = Ok pha'
    ∧ event_features grid event = Ok entries
    ∧ length pha' = length (event_coordinates grid event)
    ∧ length entries = length (event_coordinates grid event)
    ∧ ∀ (i : nat) (c r : Z),
        event_coordinates grid event !! i = Some (c, r) →
        ∃ s, ndarray_getitem (pha event) (adc_channel grid c r) = Ok s
             ∧ pha' !! i = Some s
             ∧ signal <$> entries !! i = Some (float_of_int s).
Proof.
  intros Hvalid. destruct (reordered_pha_is_Ok Hvalid) as [pha' Hpha].
  pose proof (reordered_pha_length _ Hpha) as Hlen.
  eexists pha', _. split; [done |].
  split; [by apply event_features_unfold |]. split; [done |].
  split.
  { unfold zip3. rewrite !length_zip_with, !length_map. lia. }
  intros i c r Hi.
  apply mapM_Ok in Hpha. rewrite adc_channel_order_coords in Hpha.
  destruct (Forall2_lookup_l _ _ _ i (adc_channel grid c r) Hpha)
    as (s & Hs & Hget); [by rewrite list_lookup_fmap, Hi |].
  exists s. split; [done |]. split; [done |].
  erewrite lookup_zip3;
    [reflexivity | by rewrite list_lookup_fmap, Hs
     | by rewrite list_lookup_fmap, Hi ..].
Qed.

(** C5. In every feature row that is emitted, the entry at index 0 has
    the offset [(x[0] - x[0], y[0] - y[0])], where [(x[0], y[0])] is the
    physical position of the central pixel; for a finite position this
    is exactly (0, 0). *)
Theorem central_offset_is_zero (entries : list feature_entry) :
  event_features grid event = Ok entries →
  ∃ s, entries !! 0%nat
       = Some (s, float_sub (center_world grid event).1 (center_world grid event).1,
                  float_sub (center_world grid event).2 (center_world grid event).2)
     ∧ (is_finite (center_world grid event).1 = true →
        is_finite (center_world grid event).2 = true →
        entries !! 0%nat = Some (s, zero, zero)).
Proof.
  intros Hentries.
  destruct (event_features_reordered _ Hentries) as [pha' Hpha].
  pose proof (reordered_pha_length _ Hpha) as Hlen.
  rewrite (event_features_unfold _ Hpha) in Hentries.
  injection Hentries as <-.
  revert Hlen. unfold event_coordinates. rewrite crown_unfold.
  destruct pha' as [|s pha']; [done |]. intros _.
  exists (float_of_int s). split; [reflexivity |].
  intros Hx Hy. simpl. unfold world, center_world. simpl.
  by rewrite !float_sub_diag.
Qed.
End FeatureAssembly.

Lemma reordered_pha_is_gather_witness :
  Forall (valid_index (pha interior_event)) (adc_channel_order sample_grid interior_event)
  ∧ ∃ pha' entries,
      reordered_pha sample_grid interior_event = Ok pha'
      ∧ event_features sample_grid interior_event = Ok entries
      ∧ length pha' = length (event_coordinates sample_grid interior_event)
      ∧ length entries = length (event_coordinates sample_grid interior_event)
      ∧ ∀ (i : nat) (c r : Z),
          event_coordinates sample_grid interior_event !! i = Some (c, r) →
          ∃ s, ndarray_getitem (pha interior_event) (adc_channel sample_grid c r) = Ok s
               ∧ pha' !! i = Some s
               ∧ signal <$> entries !! i = Some (float_of_int s).
Proof.
  assert (H : Forall (valid_index (pha interior_event))
                (adc_channel_order sample_grid interior_event))
    by (unfold valid_index; vm_compute; repeat constructor; discriminate).
  split; [exact H |].
  apply (reordered_pha_is_gather sample_grid interior_event H).
Defined.

Lemma central_offset_is_zero_witness :
  ∃ entries,
    event_features sample_grid interior_event = Ok entries
    ∧ ∃ s, entries !! 0%nat = Some (s, zero, zero).
Proof.
  destruct (event_features sample_grid interior_event) as [entries|e] eqn:H;
    [|vm_compute in H; discriminate].
  exists entries. split; [reflexivity |].
  destruct (central_offset_is_zero sample_grid interior_event entries H)
    as (s & _ & Hzero).
  exists s. apply Hzero; reflexivity.
Defined.

(** ** The gather preserves the total signal *)

Lemma sum_Z_pick (raw cs : list Z) (n j : nat) :
  Z.of_nat j ∉ cs →
  sum_Z (imap (λ k v, if bool_decide (Z.of_nat (n + k) ∈ Z.of_nat j :: cs)
                      then v else 0) raw)
  = (if decide (n ≤ j)%nat then default 0 (raw !! (j - n)%nat) else 0)
    + sum_Z (imap (λ k v, if bool_decide (Z.of_nat (n + k) ∈ cs) then v else 0) raw).
Proof.
  intros Hj. revert n. induction raw as [|x raw IH]; intros n.
  - simpl. by destruct (decide _).
  - rewrite !imap_cons. simpl sum_Z.
    rewrite (imap_ext _ (λ k v, if bool_decide (Z.of_nat (S n + k) ∈ Z.of_nat j :: cs)
                                then v else 0) raw)
      by (intros k v _; simpl; by rewrite Nat.add_succ_r).
    rewrite (imap_ext (_ ∘ S) (λ k v, if bool_decide (Z.of_nat (S n + k) ∈ cs)
                                      then v else 0) raw)
      by (intros k v _; simpl; by rewrite Nat.add_succ_r).
    rewrite (IH (S n)), Nat.add_0_r.
    destruct (decide (n = j)) as [->|Hne].
    + rewrite bool_decide_true by (apply elem_of_cons; by left).
      rewrite bool_decide_false by done.
      rewrite decide_False by lia. rewrite decide_True by lia.
      rewrite Nat.sub_diag. simpl. lia.
    + assert (Z.of_nat n ∈ Z.of_nat j :: cs ↔ Z.of_nat n ∈ cs) as Hiff
        by (rewrite elem_of_cons; split; [intros [?|?]; [lia | done] | auto]).
      rewrite (bool_decide_ext _ _ Hiff).
      destruct (decide (n ≤ j)%nat), (decide (S n ≤ j)%nat); try lia.
      replace (j - n)%nat with (S (j - S n)) by lia. simpl. lia.
Qed.

Lemma sum_Z_imap_zero (f : nat → Z → Z) (raw : list Z) :
  (∀ k v, f k v = 0) → sum_Z (imap f raw) = 0.
Proof.
  revert f. induction raw as [|x raw IH]; intros f Hf; [done |].
  rewrite imap_cons. simpl. rewrite Hf. apply IH. intros k v. apply Hf.
Qed.

Lemma restricted_sum_nil (raw : list Z) : restricted_sum raw [] = 0.
Proof.
  apply sum_Z_imap_zero. intros k v.
  by rewrite bool_decide_false by apply not_elem_of_nil.
Qed.

Lemma restricted_sum_cons (raw cs : list Z) (c v : Z) :
  c ∉ cs → 0 ≤ c → raw !! Z.to_nat c = Some v →
  restricted_sum raw (c :: cs) = v + restricted_sum raw cs.
Proof.
  intros Hc Hpos Hv. unfold restricted_sum.
  pose proof (sum_Z_pick raw cs 0 (Z.to_nat c)) as H.
  rewrite Z2Nat.id in H by done. specialize (H Hc).
  rewrite decide_True in H by lia. rewrite Nat.sub_0_r, Hv in H. exact H.
Qed.

Section TotalSignal.
Variable grid : HexagonalGrid.
Variable event : DigiEventCircular.

Lemma ndarray_take_sum (raw chans : list Z) :
  NoDup chans → Forall (channel_of raw) chans →
  ∃ taken, ndarray_take raw chans = Ok taken
           ∧ sum_Z taken = restricted_sum raw chans.
Proof.
  unfold ndarray_take.
  induction 1 as [|c cs Hc Hnodup IH]; intros Hchan.
  - exists []. by rewrite restricted_sum_nil.
  - apply Forall_cons in Hchan as [Hch Hchan].
    destruct (IH Hchan) as (taken & Htaken & Hsum).
    destruct (ndarray_getitem_channel raw c Hch) as (v & Hv & Hget).
    exists (v :: taken). rewrite mapM_cons, Hget, Htaken. split; [done |].
    rewrite (restricted_sum_cons raw cs c v Hc); [| apply Hch | done].
    simpl. by rewrite Hsum.
Qed.

End TotalSignal.

(** ** Target assembly *)

Section TargetAssembly.
Variable grid : HexagonalGrid.
Variable file : DigiInputFileCircular.

Lemma pixel_to_world_array_events (evs : list DigiEventCircular) :
  pixel_to_world_array grid (map column evs) (map row evs)
  = (map (λ ev, (center_world grid ev).1) evs,
     map (λ ev, (center_world grid ev).2) evs).
Proof.
  unfold pixel_to_world_array.
  assert (zip_with (pixel_to_world grid) (map column evs) (map row evs)
          = map (center_world grid) evs)
    as -> by (induction evs as [|ev evs IH]; simpl; [done | by rewrite IH]).
  by rewrite !map_map.
Qed.

Lemma ndarray_sub_aligned (a b : list float) :
  length a = length b → ndarray_sub a b = Ok (zip_with float_sub a b).
Proof. intros H. unfold ndarray_sub. by rewrite decide_True. Qed.

Variables energy x_hit y_hit : list float.
Hypothesis energy_read : mc_column file "energy" = Ok energy.
Hypothesis x_hit_read : mc_column file "absx" = Ok x_hit.
Hypothesis y_hit_read : mc_column file "absy" = Ok y_hit.
Hypothesis energy_aligned : length energy = length (events file).
Hypothesis x_hit_aligned : length x_hit = length (events file).
Hypothesis y_hit_aligned : length y_hit = length (events file).

(** The target array of a stream with at least one event whose Monte
    Carlo columns hold one entry per event. *)
Lemma target_data_aligned :
  events file ≠ [] →
  target_data grid file
  = Ok (zip3 energy
          (zip_with float_sub x_hit (map (λ ev, (center_world grid ev).1) (events file)))
          (zip_with float_sub y_hit (map (λ ev, (center_world grid ev).2) (events file)))).
Proof.
  intros Hne. unfold target_data.
  rewrite energy_read, x_hit_read, y_hit_read.
  unfold mbind, result_bind. rewrite pixel_to_world_array_events.
  rewrite !ndarray_sub_aligned by (by rewrite length_map).
  destruct (events file) as [|ev evs]; [done |].
  destruct energy as [|e en]; [done |].
  destruct x_hit as [|x xs]; [done |].
  destruct y_hit as [|y ys]; [done |]. reflexivity.
Qed.

Lemma target_data_aligned_lookup (i : nat) (ev : DigiEventCircular) (e x y : float) :
  events file !! i = Some ev →
  energy !! i = Some e → x_hit !! i = Some x → y_hit !! i = Some y →
  ∃ rows, target_data grid file = Ok rows
          ∧ length rows = length (events file)
          ∧ rows !! i = Some (e, float_sub x (center_world grid ev).1,
                                 float_sub y (center_world grid ev).2).
Proof.
  intros Hev He Hx Hy. eexists. split.
  { apply target_data_aligned. intros Hnil. by rewrite Hnil in Hev. }
  split.
  { unfold zip3. rewrite !length_zip_with, !length_map. lia. }
  apply lookup_zip3; [done | |]; apply lookup_zip_with_Some;
    eexists _, _; (split; [reflexivity |]); (split; [done |]);
    by rewrite list_lookup_fmap, Hev.
Qed.

(** C7. For every event of a stream whose Monte Carlo columns hold one
    entry per event, the target row of the event is (energy, hit x minus
    the central pixel's x, hit y minus the central pixel's y).  When the
    hit is the central pixel's (finite) position, the offset is exactly
    (0.0, 0.0); when it merely compares equal to it, the offset compares
    equal to (0.0, 0.0). *)
Theorem target_row_is_hit_minus_center
    (i : nat) (ev : DigiEventCircular) (e x y : float) :
  events file !! i = Some ev →
  energy !! i = Some e → x_hit !! i = Some x → y_hit !! i = Some y →
  ∃ rows target,
    target_data grid file = Ok rows
    ∧ rows !! i = Some target
    ∧ target = (e, float_sub x (center_world grid ev).1,
                   float_sub y (center_world grid ev).2)
    ∧ (center_world grid ev = (x, y) → is_finite x = true → is_finite y = true →
       target = (e, zero, zero))
    ∧ (float_eqb x (center_world grid ev).1 = true →
       float_eqb y (center_world grid ev).2 = true →
       is_finite x = true → is_finite y = true →
       float_eqb (x_offset target) zero = true
       ∧ float_eqb (y_offset target) zero = true).
Proof.
  intros Hev He Hx Hy.
  destruct (target_data_aligned_lookup i ev e x y Hev He Hx Hy)
    as (rows & Hrows & _ & Hrow).
  eexists rows, _. split; [done |]. split; [exact Hrow |]. split; [done |].
  split.
  - intros -> Hfx Hfy. simpl. by rewrite !float_sub_diag.
  - intros Hex Hey Hfx Hfy. unfold x_offset, y_offset. simpl.
    split; by apply float_sub_eqb_zero.
Qed.

Lemma np_array_uniform {A} (rows : list (list A)) (m : nat) :
  Forall (λ r, length r = m) rows → np_array rows = Ok rows.
Proof.
  destruct 1 as [|r rs Hr Hrs]; [done |]. unfold np_array.
  assert (forallb (λ r', Nat.eqb (length r') (length r)) rs = true) as ->; [|done].
  apply forallb_forall. intros r' Hin. apply Nat.eqb_eq.
  rewrite Forall_forall in Hrs. rewrite Hr. apply Hrs. by apply list_elem_of_In.
Qed.

(** The feature array of a stream whose events all have usable channel
    indices and equally many reported neighbours. *)
Lemma input_events_data_uniform (n : nat) :
  Forall (λ ev, Forall (valid_index (pha ev)) (adc_channel_order grid ev)) (events file) →
  Forall (λ ev, length (neighbors grid (column ev) (row ev)) = n) (events file) →
  ∃ features,
    input_events_data grid file = Ok features
    ∧ Forall2 (λ ev entries, event_features grid ev = Ok entries) (events file) features.
Proof.
  intros Hvalid Hcrown. unfold input_events_data.
  destruct (mapM_is_Ok (event_features grid) (events file)) as [features Hfeatures].
  { eapply Forall_impl; [exact Hvalid |]. intros ev Hev.
    destruct (event_features_is_Ok grid ev Hev) as (entries & ? & _).
    by exists entries. }
  exists features. rewrite Hfeatures. apply mapM_Ok in Hfeatures.
  split; [|done]. unfold mbind, result_bind. apply (np_array_uniform _ (S n)).
  apply Forall_forall. intros entries Hin.
  apply list_elem_of_lookup in Hin as [i Hi].
  destruct (Forall2_lookup_r _ _ _ _ _ Hfeatures Hi) as (ev & Hev & Hentries).
  rewrite Forall_forall in Hvalid, Hcrown.
  apply list_elem_of_lookup_2 in Hev.
  destruct (event_features_is_Ok grid ev (Hvalid ev Hev))
    as (entries' & Hentries' & Hlen).
  rewrite Hentries in Hentries'. injection Hentries' as <-.
  rewrite Hlen. unfold event_coordinates. rewrite crown_length.
  f_equal. by apply Hcrown.
Qed.

(** Sufficient for both arrays to be built: at least one event, channel
    indices NumPy accepts, and equally many reported neighbours for every
    event. *)
Lemma datasets_built_and_aligned (n : nat) :
  events file ≠ [] →
  Forall (λ ev, Forall (valid_index (pha ev)) (adc_channel_order grid ev)) (events file) →
  Forall (λ ev, length (neighbors grid (column ev) (row ev)) = n) (events file) →
  ∃ features targets,
    input_events_data grid file = Ok features
    ∧ target_data grid file = Ok targets
    ∧ length features = length (events file)
    ∧ length targets = length (events file)
    ∧ ∀ (i : nat) (ev : DigiEventCircular),
        events file !! i = Some ev →
        (∃ entries, event_features grid ev = Ok entries
                    ∧ features !! i = Some entries)
        ∧ (∃ e x y, energy !! i = Some e ∧ x_hit !! i = Some x ∧ y_hit !! i = Some y
                    ∧ targets !! i
                      = Some (e, float_sub x (center_world grid ev).1,
                                 float_sub y (center_world grid ev).2)).
Proof.
  intros Hne Hvalid Hcrown.
  destruct (input_events_data_uniform n Hvalid Hcrown) as (features & Hfeatures & Hrows).
  exists features. eexists. split; [exact Hfeatures |].
  split; [by apply target_data_aligned |].
  split; [symmetry; by eapply Forall2_length |].
  split; [unfold zip3; rewrite !length_zip_with, !length_map; lia |].
  intros i ev Hev. split.
  - destruct (Forall2_lookup_l _ _ _ _ _ Hrows Hev) as (entries & ? & ?). eauto.
  - pose proof (lookup_lt_Some _ _ _ Hev) as Hi.
    destruct (lookup_lt_is_Some_2 energy i) as [e He]; [lia |].
    destruct (lookup_lt_is_Some_2 x_hit i) as [x Hx]; [lia |].
    destruct (lookup_lt_is_Some_2 y_hit i) as [y Hy]; [lia |].
    exists e, x, y. repeat (split; [done |]).
    apply lookup_zip3; [done | |]; apply lookup_zip_with_Some;
      eexists _, _; (split; [reflexivity |]); (split; [done |]);
      by rewrite list_lookup_fmap, Hev.
Qed.
End TargetAssembly.

(** ** Errors raised by the reader *)

(** C9 (amended). Target assembly has no error condition of its own for
    missing ground truth: when reading the [energy] column raises, that
    exception, whatever it is, is what [target_data] raises. *)
Theorem target_data_raises_reader_exception
    (grid : HexagonalGrid) (file : DigiInputFileCircular) (e : exn) :
  mc_column file "energy" = Raise e → target_data grid file = Raise e.
Proof. intros H. unfold target_data. by rewrite H. Qed.

(** X11. Every failure of [target_data] has one of two origins: the
    reader raised it for one of the columns [energy], [absx], [absy], and
    it is passed on unchanged; or the three columns were read and NumPy
    raised [ValueError]. *)
Lemma target_data_failures
    (grid : HexagonalGrid) (file : DigiInputFileCircular) (e : exn) :
  target_data grid file = Raise e →
  (∃ name, name ∈ ["energy"; "absx"; "absy"]%string ∧ mc_column file name = Raise e)
  ∨ (is_Ok (mc_column file "energy") ∧ is_Ok (mc_column file "absx")
     ∧ is_Ok (mc_column file "absy") ∧ e = ValueError).
Proof.
  unfold target_data, mbind, result_bind.
  destruct (mc_column file "energy") as [en|e1] eqn:H1;
    [|intros [= <-]; left; exists "energy"%string; split; [repeat constructor | done]].
  destruct (mc_column file "absx") as [xs|e2] eqn:H2;
    [|intros [= <-]; left; exists "absx"%string; split; [repeat constructor | done]].
  destruct (mc_column file "absy") as [ys|e3] eqn:H3;
    [|intros [= <-]; left; exists "absy"%string; split; [repeat constructor | done]].
  destruct (pixel_to_world_array grid _ _) as [x_max y_max].
  unfold ndarray_sub, np_stack.
  repeat match goal with
         | |- context [match ?t with _ => _ end] =>
             lazymatch t with
             | decide _ => destruct t
             | _ => is_var t; destruct t
             end
         | |- context [if ?t then _ else _] => destruct t
         end; intros [= <-]; right; repeat split; by eexists.
Qed.

Lemma target_row_is_hit_minus_center_witness :
  ∃ rows target,
    target_data sample_grid simulated_file = Ok rows
    ∧ rows !! 0%nat = Some target
    ∧ target = (float_of_int 5900, zero, zero).
Proof.
  destruct (target_row_is_hit_minus_center sample_grid simulated_file
              (map float_of_int [5900; 5900])
              (map float_of_int [11; 9]) (map float_of_int [-15; -12])
              eq_refl eq_refl eq_refl eq_refl eq_refl eq_refl
              0%nat interior_event
              (float_of_int 5900) (float_of_int 11) (float_of_int (-15))
              eq_refl eq_refl eq_refl eq_refl)
    as (rows & target & Hrows & Hrow & _ & Hzero & _).
  exists rows, target. split; [exact Hrows |]. split; [exact Hrow |].
  apply Hzero; reflexivity.
Defined.

Lemma target_data_raises_reader_exception_witness :
  mc_column detector_file "energy" = Raise (Raised "KeyError")
  ∧ target_data sample_grid detector_file = Raise (Raised "KeyError").
Proof.
  split; [reflexivity |].
  apply (target_data_raises_reader_exception sample_grid detector_file).
  reflexivity.
Defined.

(** C9, as stated, fails on a file without Monte Carlo columns whose reader
    raises [KeyError]: what [target_data] raises is that [KeyError], not a
    [GroundTruthUnavailable] condition, and it is the very exception it
    raises when a single column of an otherwise complete file cannot be
    read. *)
Lemma missing_truth_not_signalled_distinctly :
  (∀ name, mc_column detector_file name = Raise (Raised "KeyError"))
  ∧ target_data sample_grid detector_file = Raise (Raised "KeyError")
  ∧ target_data sample_grid detector_file ≠ Raise (Raised "GroundTruthUnavailable")
  ∧ target_data sample_grid
      {| events := events simulated_file;
         mc_column name :=
           if String.eqb name "absy" then Raise (Raised "KeyError")
           else mc_column simulated_file name |}
    = target_data sample_grid detector_file.
Proof.
  split; [reflexivity |]. split; [reflexivity |].
  split; [discriminate | reflexivity].
Qed.

(** * Further properties of the module *)

(** ** The error monad, continued *)

Lemma mapM_Raise {A B} (f : A → result B) (l : list A) (e : exn) :
  mapM f l = Raise e → ∃ x, x ∈ l ∧ f x = Raise e.
Proof.
  induction l as [|x l IH]; [done |]. rewrite mapM_cons.
  destruct (f x) as [y|e'] eqn:Hx.
  - destruct (mapM f l) as [k|e'] eqn:Hl; [done |]. intros [= ->].
    destruct IH as (x' & Hin & Hx'); [done |].
    exists x'. split; [by apply elem_of_cons; right | done].
  - intros [= ->]. exists x. split; [by apply elem_of_cons; left | done].
Qed.

Lemma mapM_is_Ok_inv {A B} (f : A → result B) (l : list A) :
  is_Ok (mapM f l) → Forall (λ x, is_Ok (f x)) l.
Proof.
  intros [k Hk]. apply mapM_Ok in Hk.
  induction Hk as [|x y l k Hx _ IH]; constructor; [by exists y | done].
Qed.

Lemma mapM_post {A B C} (f : A → result B) (h : A → B → C) (l : list A) :
  mapM (λ p, s ← f p; Ok (h p s)) l
  = match mapM f l with
    | Ok ss => Ok (zip_with h l ss)
    | Raise e => Raise e
    end.
Proof.
  induction l as [|p l IH]; [done |].
  rewrite !mapM_cons, IH. unfold mbind, result_bind.
  destruct (f p) as [s|e]; [| done]. by destruct (mapM f l).
Qed.

Lemma mapM_map {A B C} (f : B → result C) (g : A → B) (l : list A) :
  mapM f (map g l) = mapM (λ p, f (g p)) l.
Proof.
  induction l as [|p l IH]; [done |]. by rewrite map_cons, !mapM_cons, IH.
Qed.

Lemma mapM_Permutation {A B} (f : A → result B) (l l' : list A) (k : list B) :
  l ≡ₚ l' → mapM f l = Ok k → ∃ k', mapM f l' = Ok k' ∧ k ≡ₚ k'.
Proof.
  intros Hperm. revert k.
  induction Hperm as [|x l l' _ IH|x y l|l l' l'' _ IH1 _ IH2]; intros k.
  - intros [= <-]. by exists [].
  - rewrite !mapM_cons. destruct (f x) as [v|]; [|done].
    destruct (mapM f l) as [k0|]; [|done]. intros [= <-].
    destruct (IH k0 eq_refl) as (k' & -> & Hk'). exists (v :: k').
    split; [done | by constructor].
  - rewrite !mapM_cons. destruct (f y) as [v|]; [|done].
    destruct (f x) as [w|]; [|done].
    destruct (mapM f l) as [k0|]; [|done]. intros [= <-].
    exists (w :: v :: k0). split; [done | by constructor].
  - intros Hk. destruct (IH1 k Hk) as (k' & Hk' & Hp1).
    destruct (IH2 k' Hk') as (k'' & Hk'' & Hp2).
    exists k''. split; [done | by etrans].
Qed.

(** ** NumPy indexing, continued *)

Lemma ndarray_getitem_Ok {A} (raw : list A) (i : Z) (v : A) :
  ndarray_getitem raw i = Ok v → valid_index raw i.
Proof.
  unfold ndarray_getitem, valid_index.
  destruct (Z.ltb_spec i 0);
    destruct (Z.leb_spec 0 (i + Z.of_nat (length raw)));
    destruct (Z.leb_spec 0 i);
    destruct (Z.ltb_spec (i + Z.of_nat (length raw)) (Z.of_nat (length raw)));
    destruct (Z.ltb_spec i (Z.of_nat (length raw)));
    simpl; try discriminate; intros _; lia.
Qed.

Lemma ndarray_getitem_Raise {A} (raw : list A) (i : Z) (e : exn) :
  ndarray_getitem raw i = Raise e → e = IndexError.
Proof.
  unfold ndarray_getitem.
  destruct (_ && _); [destruct (raw !! _) |]; by intros [= <-].
Qed.

(** A negative index counts from the end of the array. *)
Lemma ndarray_getitem_wrap {A} (raw : list A) (i : Z) :
  - Z.of_nat (length raw) ≤ i < 0 →
  ndarray_getitem raw i = ndarray_getitem raw (i + Z.of_nat (length raw)).
Proof.
  intros Hi. unfold ndarray_getitem.
  destruct (Z.ltb_spec i 0); [|lia].
  destruct (Z.ltb_spec (i + Z.of_nat (length raw)) 0); [lia | done].
Qed.

(** ** Feature assembly, pixel by pixel *)

Lemma zip3_zip_with {A B C D E} (f : B → C) (a : A → D) (b : A → E)
    (l : list A) (ss : list B) :
  zip3 (map f ss) (map a l) (map b l) = zip_with (λ p s, (f s, a p, b p)) l ss.
Proof.
  unfold zip3. revert ss.
  induction l as [|p l IH]; intros [|s ss]; simpl; try done.
  f_equal. apply IH.
Qed.

(** The feature row of an event is assembled pixel by pixel, over the
    coordinates the resolver returns, and fails as soon as one pixel does. *)
Lemma event_features_pixelwise (grid : HexagonalGrid) (event : DigiEventCircular) :
  event_features grid event
  = mapM (pixel_entry grid event) (event_coordinates grid event).
Proof.
  unfold pixel_entry.
  rewrite (mapM_post (λ p, ndarray_getitem (pha event) (adc_channel grid p.1 p.2))
             (λ p s, (float_of_int s,
                      float_sub (world grid p).1 (center_world grid event).1,
                      float_sub (world grid p).2 (center_world grid event).2))).
  rewrite <- (mapM_map (ndarray_getitem (pha event)) (λ p, adc_channel grid p.1 p.2)).
  rewrite <- adc_channel_order_coords.
  change (mapM (ndarray_getitem (pha event)) (adc_channel_order grid event))
    with (reordered_pha grid event).
  destruct (reordered_pha grid event) as [pha'|e] eqn:Hpha.
  - rewrite (event_features_unfold grid event pha' Hpha). f_equal.
    apply zip3_zip_with.
  - unfold event_features. by rewrite Hpha.
Qed.

Lemma event_features_lookup
    (grid : HexagonalGrid) (event : DigiEventCircular)
    (entries : list feature_entry) (i : nat) (p : coordinate) :
  event_features grid event = Ok entries →
  event_coordinates grid event !! i = Some p →
  ∃ entry, entries !! i = Some entry ∧ pixel_entry grid event p = Ok entry.
Proof.
  rewrite event_features_pixelwise, mapM_Ok. intros Hrows Hp.
  apply (Forall2_lookup_l _ _ _ _ _ Hrows Hp).
Qed.



Lemma pixel_entry_is_Ok (grid : HexagonalGrid) (event : DigiEventCircular)
    (p : coordinate) :
  is_Ok (pixel_entry grid event p)
  ↔ valid_index (pha event) (adc_channel grid p.1 p.2).
Proof.
  unfold pixel_entry, mbind, result_bind. split.
  - intros [entry Hentry].
    destruct (ndarray_getitem _ _) as [s|e] eqn:Hs; [|done].
    by eapply ndarray_getitem_Ok.
  - intros Hvalid. destruct (ndarray_getitem_valid _ _ Hvalid) as [s ->].
    by eexists.
Qed.

Lemma pixel_entry_Raise (grid : HexagonalGrid) (event : DigiEventCircular)
    (p : coordinate) (e : exn) :
  pixel_entry grid event p = Raise e → e = IndexError.
Proof.
  unfold pixel_entry, mbind, result_bind.
  destruct (ndarray_getitem _ _) as [s|e'] eqn:Hs; [done |].
  intros [= <-]. by eapply ndarray_getitem_Raise.
Qed.

Lemma event_features_Raise (grid : HexagonalGrid) (event : DigiEventCircular)
    (e : exn) :
  event_features grid event = Raise e → e = IndexError.
Proof.
  rewrite event_features_pixelwise. intros H.
  apply mapM_Raise in H as (p & _ & Hp). by eapply pixel_entry_Raise.
Qed.

Lemma event_features_is_Ok_iff (grid : HexagonalGrid) (event : DigiEventCircular) :
  is_Ok (event_features grid event)
  ↔ Forall (valid_index (pha event)) (adc_channel_order grid event).
Proof.
  split.
  - rewrite event_features_pixelwise, adc_channel_order_coords.
    intros H. apply mapM_is_Ok_inv in H. rewrite Forall_fmap.
    eapply Forall_impl; [exact H |]. intros p. apply pixel_entry_is_Ok.
  - intros H. destruct (event_features_is_Ok grid event H) as (entries & ? & _).
    by exists entries.
Qed.

(** X2. Feature assembly of one event succeeds exactly when every ADC
    channel of its pixels is an index NumPy accepts for the event's PHA
    array (between minus its length and its length, exclusive); whenever it
    fails, it fails with [IndexError]. *)
Theorem event_features_succeeds_iff_channels_in_bounds
    (grid : HexagonalGrid) (event : DigiEventCircular) :
  (is_Ok (event_features grid event)
   ↔ Forall (valid_index (pha event)) (adc_channel_order grid event))
  ∧ (∀ e, event_features grid event = Raise e → e = IndexError).
Proof. split; [apply event_features_is_Ok_iff | apply event_features_Raise]. Qed.

(** X3. A negative ADC channel is not rejected: for a pixel whose channel
    [ch] lies between minus the length of the PHA array and -1, the signal
    of its entry is the PHA entry at position [length + ch], counted from
    the start. *)
Theorem negative_channel_counts_from_end
    (grid : HexagonalGrid) (event : DigiEventCircular)
    (entries : list feature_entry) (i : nat) (p : coordinate) :
  event_features grid event = Ok entries →
  event_coordinates grid event !! i = Some p →
  - Z.of_nat (length (pha event)) ≤ adc_channel grid p.1 p.2 < 0 →
  ∃ s, pha event !! Z.to_nat (Z.of_nat (length (pha event)) + adc_channel grid p.1 p.2)
       = Some s
       ∧ signal <$> entries !! i = Some (float_of_int s).
Proof.
  intros Hentries Hp Hneg.
  destruct (event_features_lookup grid event entries i p Hentries Hp)
    as (entry & Hentry & Hpixel).
  unfold pixel_entry in Hpixel. rewrite ndarray_getitem_wrap in Hpixel by done.
  destruct (ndarray_getitem_channel (pha event)
              (adc_channel grid p.1 p.2 + Z.of_nat (length (pha event))))
    as (v & Hv & Hget); [unfold channel_of; lia |].
  rewrite Hget in Hpixel. injection Hpixel as <-.
  exists v. rewrite Z.add_comm, Hv, Hentry. done.
Qed.

Lemma negative_channel_counts_from_end_witness :
  ∃ entries s,
    event_features end_counting_grid interior_event = Ok entries
    ∧ adc_channel end_counting_grid 5 5 = -3
    ∧ pha interior_event !! 4%nat = Some s
    ∧ signal <$> entries !! 0%nat = Some (float_of_int s).
Proof.
  destruct (event_features end_counting_grid interior_event) as [entries|e] eqn:H;
    [|vm_compute in H; discriminate].
  assert (Hneg : - Z.of_nat (length (pha interior_event))
                 ≤ adc_channel end_counting_grid (5, 5).1 (5, 5).2 < 0)
    by (vm_compute; split; [discriminate | reflexivity]).
  destruct (negative_channel_counts_from_end end_counting_grid interior_event
              entries 0 (5, 5) H eq_refl Hneg) as (s & Hs & Hentry).
  exists entries, s. split; [reflexivity |]. split; [reflexivity |].
  split; [exact Hs | exact Hentry].
Defined.

(** ** The feature dataset *)

Lemma np_array_Ok {A} (rows rows' : list (list A)) :
  np_array rows = Ok rows' → rows' = rows.
Proof.
  unfold np_array. destruct rows as [|r rs]; [by intros [= <-] |].
  destruct (forallb _ _); [by intros [= <-] | done].
Qed.

Lemma event_features_length (grid : HexagonalGrid) (event : DigiEventCircular)
    (entries : list feature_entry) :
  event_features grid event = Ok entries →
  length entries = S (length (neighbors grid (column event) (row event))).
Proof.
  rewrite event_features_pixelwise, mapM_Ok. intros H.
  apply Forall2_length in H. rewrite <- H.
  unfold event_coordinates. apply crown_length.
Qed.

(** X4. When the feature dataset is built, it has exactly one row per event
    of the stream, in stream order: row [i] is the feature row of event
    [i], and it has one entry for the central pixel plus one per neighbour
    the grid reports for that event.  No event is skipped or padded. *)
Theorem input_events_data_row_per_event
    (grid : HexagonalGrid) (file : DigiInputFileCircular)
    (features : list (list feature_entry)) :
  input_events_data grid file = Ok features →
  length features = length (events file)
  ∧ ∀ (i : nat) (ev : DigiEventCircular),
      events file !! i = Some ev →
      ∃ entries,
        features !! i = Some entries
        ∧ event_features grid ev = Ok entries
        ∧ length entries = S (length (neighbors grid (column ev) (row ev))).
Proof.
  unfold input_events_data, mbind, result_bind.
  destruct (mapM (event_features grid) (events file)) as [rows|e] eqn:Hrows; [|done].
  intros Hfeatures. apply np_array_Ok in Hfeatures. subst features.
  apply mapM_Ok in Hrows.
  split; [symmetry; by eapply Forall2_length |].
  intros i ev Hev.
  destruct (Forall2_lookup_l _ _ _ _ _ Hrows Hev) as (entries & Hentries & Hfeat).
  exists entries. repeat split; [done | done |]. by apply event_features_length.
Qed.

Lemma input_events_data_row_per_event_witness :
  ∃ features,
    input_events_data sample_grid simulated_file = Ok features
    ∧ length features = length (events simulated_file).
Proof.
  destruct (input_events_data sample_grid simulated_file) as [features|e] eqn:H;
    [|vm_compute in H; discriminate].
  exists features. split; [reflexivity |].
  apply (input_events_data_row_per_event sample_grid simulated_file features H).
Defined.

(** X5. One event with an ADC channel outside the bounds of its PHA array
    makes the whole feature dataset build raise [IndexError]: no partial
    dataset is returned and the event is not skipped. *)
Theorem input_events_data_aborts_on_bad_channel
    (grid : HexagonalGrid) (file : DigiInputFileCircular) :
  Exists (λ ev, ¬ Forall (valid_index (pha ev)) (adc_channel_order grid ev))
         (events file) →
  input_events_data grid file = Raise IndexError.
Proof.
  intros Hbad. unfold input_events_data, mbind, result_bind.
  destruct (mapM (event_features grid) (events file)) as [rows|e] eqn:Hrows.
  - exfalso. assert (is_Ok (mapM (event_features grid) (events file))) as Hok
      by (by exists rows).
    apply mapM_is_Ok_inv in Hok. apply Exists_exists in Hbad as (ev & Hin & Hev).
    rewrite Forall_forall in Hok. apply Hev.
    apply event_features_is_Ok_iff, Hok, Hin.
  - apply mapM_Raise in Hrows as (ev & _ & Hev).
    by rewrite (event_features_Raise grid ev e Hev).
Qed.

Lemma input_events_data_aborts_on_bad_channel_witness :
  Exists (λ ev, ¬ Forall (valid_index (pha ev)) (adc_channel_order sample_grid ev))
         (events short_pha_file)
  ∧ input_events_data sample_grid short_pha_file = Raise IndexError.
Proof.
  assert (H : Exists (λ ev, ¬ Forall (valid_index (pha ev))
                               (adc_channel_order sample_grid ev))
                (events short_pha_file)).
  { apply Exists_cons_tl, Exists_cons_hd. intros Hall.
    apply Forall_cons in Hall as [_ Hall]. apply Forall_cons in Hall as [Hbad _].
    destruct Hbad as [_ Hbad]. vm_compute in Hbad. discriminate. }
  split; [exact H |].
  apply (input_events_data_aborts_on_bad_channel sample_grid short_pha_file H).
Defined.

(** ** Streams without events *)

Lemma ndarray_sub_nil_r (a d : list float) : ndarray_sub a [] = Ok d → d = [].
Proof.
  unfold ndarray_sub. destruct (decide _) as [Hlen|_].
  - intros [= <-]. by destruct a.
  - destruct a as [|a0 [|a1 a]]; by intros [= <-].
Qed.

(** X6. For a stream without events the two assembly methods disagree: the
    feature dataset is built and is empty, while target assembly never
    returns an array, whatever the Monte Carlo columns hold. *)
Theorem empty_stream_features_empty_targets_fail
    (grid : HexagonalGrid) (file : DigiInputFileCircular) :
  events file = [] →
  input_events_data grid file = Ok []
  ∧ ¬ is_Ok (target_data grid file).
Proof.
  intros Hempty. split.
  - unfold input_events_data. by rewrite Hempty.
  - intros [rows Hrows]. revert Hrows.
    unfold target_data, mbind, result_bind. rewrite Hempty.
    destruct (mc_column file "energy") as [en|]; [|done].
    destruct (mc_column file "absx") as [xs|]; [|done].
    destruct (mc_column file "absy") as [ys|]; [|done]. simpl.
    destruct (ndarray_sub xs []) as [dx|] eqn:Hdx; [|done].
    apply ndarray_sub_nil_r in Hdx as ->.
    by destruct (ndarray_sub ys []).
Qed.

Lemma empty_stream_features_empty_targets_fail_witness :
  events empty_file = []
  ∧ input_events_data sample_grid empty_file = Ok []
  ∧ ¬ is_Ok (target_data sample_grid empty_file).
Proof.
  split; [reflexivity |].
  apply (empty_stream_features_empty_targets_fail sample_grid empty_file).
  reflexivity.
Defined.

(** ** Monte Carlo columns that do not match the stream *)

Lemma ndarray_sub_Raise (a b : list float) (e : exn) :
  ndarray_sub a b = Raise e → e = ValueError.
Proof.
  unfold ndarray_sub. destruct (decide _); [done |].
  destruct a as [|a0 [|a1 a]], b as [|b0 [|b1 b]]; by intros [= <-].
Qed.

Lemma ndarray_sub_is_Ok (a b : list float) :
  is_Ok (ndarray_sub a b) ↔ broadcastable a b.
Proof.
  unfold ndarray_sub, broadcastable, is_Ok.
  destruct (decide (length a = length b)) as [Hlen|Hlen].
  - split; [by left | by eexists].
  - destruct a as [|a0 [|a1 a]], b as [|b0 [|b1 b]]; simpl in *;
      (split; [intros [d Hd]; try done; auto | intros [?|[?|?]]; try done; by eexists]).
Qed.

Lemma pixel_to_world_array_length (grid : HexagonalGrid) (evs : list DigiEventCircular) :
  length (pixel_to_world_array grid (map column evs) (map row evs)).1 = length evs
  ∧ length (pixel_to_world_array grid (map column evs) (map row evs)).2 = length evs.
Proof. rewrite pixel_to_world_array_events. simpl. by rewrite !length_map. Qed.

(** X7. Target assembly does not accept Monte Carlo columns that do not
    fit the stream: when the hit columns are read but [absx] or [absy] has
    neither as many entries as there are events nor exactly one (and the
    stream does not have exactly one event), [target_data] raises
    [ValueError]. *)
Theorem target_data_rejects_misaligned_hits
    (grid : HexagonalGrid) (file : DigiInputFileCircular)
    (energy x_hit y_hit : list float) :
  mc_column file "energy" = Ok energy →
  mc_column file "absx" = Ok x_hit →
  mc_column file "absy" = Ok y_hit →
  ¬ broadcastable x_hit (events file) ∨ ¬ broadcastable y_hit (events file) →
  target_data grid file = Raise ValueError.
Proof.
  intros He Hx Hy Hbad. unfold target_data. rewrite He, Hx, Hy.
  unfold mbind, result_bind.
  destruct (pixel_to_world_array_length grid (events file)) as [Hlx Hly].
  destruct (pixel_to_world_array grid _ _) as [x_max y_max]. simpl in Hlx, Hly.
  assert (∀ a, ¬ broadcastable a (events file) → ndarray_sub a x_max = Raise ValueError)
    as Hxmax.
  { intros a Ha. destruct (ndarray_sub a x_max) as [d|e] eqn:Hd.
    - exfalso. apply Ha. assert (is_Ok (ndarray_sub a x_max)) as Hok by (by exists d).
      apply ndarray_sub_is_Ok in Hok. unfold broadcastable in *. by rewrite <- Hlx.
    - by rewrite (ndarray_sub_Raise _ _ _ Hd). }
  assert (∀ a, ¬ broadcastable a (events file) → ndarray_sub a y_max = Raise ValueError)
    as Hymax.
  { intros a Ha. destruct (ndarray_sub a y_max) as [d|e] eqn:Hd.
    - exfalso. apply Ha. assert (is_Ok (ndarray_sub a y_max)) as Hok by (by exists d).
      apply ndarray_sub_is_Ok in Hok. unfold broadcastable in *. by rewrite <- Hly.
    - by rewrite (ndarray_sub_Raise _ _ _ Hd). }
  destruct (ndarray_sub x_hit x_max) as [dx|e] eqn:Hdx.
  - destruct Hbad as [Hbad|Hbad]; [by rewrite Hxmax in Hdx | by rewrite Hymax].
  - by rewrite (ndarray_sub_Raise _ _ _ Hdx).
Qed.

Lemma target_data_rejects_misaligned_hits_witness :
  length (events misaligned_file) = 2%nat
  ∧ mc_column misaligned_file "absx" = Ok (map float_of_int [11; 9; 7])
  ∧ target_data sample_grid misaligned_file = Raise ValueError.
Proof.
  split; [reflexivity |]. split; [reflexivity |].
  apply (target_data_rejects_misaligned_hits sample_grid misaligned_file
           (map float_of_int [5900; 5900])
           (map float_of_int [11; 9; 7]) (map float_of_int [-15; -12])
           eq_refl eq_refl eq_refl).
  left. unfold broadcastable. simpl. lia.
Defined.

(** ** Feature rows and the order in which neighbours are reported *)

Lemma rotate_Permutation {A} (k : nat) (l : list A) : rotate k l ≡ₚ l.
Proof. unfold rotate. by rewrite Permutation_app_comm, take_drop. Qed.

Lemma pixel_entry_same_geometry (g1 g2 : HexagonalGrid) (event : DigiEventCircular)
    (p : coordinate) :
  same_geometry g1 g2 → pixel_entry g1 event p = pixel_entry g2 event p.
Proof.
  intros [Hadc Hworld]. unfold pixel_entry, world, center_world.
  by rewrite Hadc, Hworld.
Qed.

Lemma mapM_ext_pixel (g1 g2 : HexagonalGrid) (event : DigiEventCircular)
    (Hgeo : same_geometry g1 g2) (l : list coordinate) :
  mapM (pixel_entry g1 event) l = mapM (pixel_entry g2 event) l.
Proof.
  induction l as [|p l IH]; [done |].
  by rewrite !mapM_cons, IH, (pixel_entry_same_geometry g1 g2 event p Hgeo).
Qed.

(** X8. The content of a feature row does not depend on the order in which
    the grid reports the neighbours, only the position of the entries does:
    two grids with the same channel map and the same geometry that report
    the same neighbours of the central pixel in different orders give rows
    with the same central entry and the same neighbour entries, up to
    their order. *)
Theorem feature_row_up_to_reporting_order
    (g1 g2 : HexagonalGrid) (event : DigiEventCircular)
    (entries1 : list feature_entry) :
  same_geometry g1 g2 →
  neighbors g2 (column event) (row event) ≡ₚ neighbors g1 (column event) (row event) →
  event_features g1 event = Ok entries1 →
  ∃ entries2,
    event_features g2 event = Ok entries2
    ∧ entries2 !! 0%nat = entries1 !! 0%nat
    ∧ drop 1 entries2 ≡ₚ drop 1 entries1.
Proof.
  intros Hgeo Hperm. rewrite !event_features_pixelwise.
  unfold event_coordinates. rewrite !crown_unfold, !mapM_cons.
  rewrite <- (pixel_entry_same_geometry g1 g2 event _ Hgeo).
  destruct (pixel_entry g1 event _) as [entry|]; [|done].
  destruct (mapM (pixel_entry g1 event) _) as [rest1|] eqn:Hrest1; [|done].
  intros [= <-].
  destruct (mapM_Permutation (pixel_entry g1 event) _ _ rest1 (symmetry Hperm) Hrest1)
    as (rest2 & Hrest2 & Hrest).
  exists (entry :: rest2).
  rewrite <- (mapM_ext_pixel g1 g2 event Hgeo), Hrest2.
  split; [done |]. split; [done |]. simpl. by rewrite !drop_0.
Qed.

Lemma feature_row_up_to_reporting_order_witness :
  ∃ entries1 entries2,
    event_features sample_grid interior_event = Ok entries1
    ∧ event_features (reporting_rotated 1 sample_grid) interior_event = Ok entries2
    ∧ entries2 !! 0%nat = entries1 !! 0%nat
    ∧ drop 1 entries2 ≡ₚ drop 1 entries1.
Proof.
  destruct (event_features sample_grid interior_event) as [entries1|e] eqn:H;
    [|vm_compute in H; discriminate].
  destruct (feature_row_up_to_reporting_order sample_grid
              (reporting_rotated 1 sample_grid) interior_event entries1
              (conj eq_refl eq_refl)
              (rotate_Permutation 1 (neighbors sample_grid 5 5)) H)
    as (entries2 & H2 & Hhead & Hrest).
  exists entries1, entries2. split; [reflexivity |]. split; [exact H2 |].
  split; [exact Hhead | exact Hrest].
Defined.

(** ** The positions of the central pixels *)

Lemma highest_pixel_coordinates_loop
    (grid : HexagonalGrid) (evs : list DigiEventCircular) (x y : list float) :
  foldl (λ '(x, y) evt,
           let '(x_tmp, y_tmp) := pixel_to_world grid (column evt) (row evt) in
           (x ++ [x_tmp], y ++ [y_tmp]))
        (x, y) evs
  = (x ++ map (λ ev, (center_world grid ev).1) evs,
     y ++ map (λ ev, (center_world grid ev).2) evs).
Proof.
  revert x y. induction evs as [|ev evs IH]; intros x y.
  - simpl. by rewrite !app_nil_r.
  - simpl. rewrite (surjective_pairing (pixel_to_world grid (column ev) (row ev))).
    rewrite IH. unfold center_world. simpl.
    f_equal; rewrite <- app_assoc; reflexivity.
Qed.

Lemma highest_pixel_coordinates_eq (grid : HexagonalGrid) (file : DigiInputFileCircular) :
  highest_pixel_coordinates grid file
  = (map (λ ev, (center_world grid ev).1) (events file),
     map (λ ev, (center_world grid ev).2) (events file)).
Proof. unfold highest_pixel_coordinates. by rewrite highest_pixel_coordinates_loop. Qed.

(** X9. [highest_pixel_coordinates] returns two lists with one entry per
    event of the stream, in stream order: for event [i], the x and the y of
    the physical position the grid gives for the event's central pixel. *)
Theorem highest_pixel_coordinates_per_event
    (grid : HexagonalGrid) (file : DigiInputFileCircular) :
  length (highest_pixel_coordinates grid file).1 = length (events file)
  ∧ length (highest_pixel_coordinates grid file).2 = length (events file)
  ∧ ∀ (i : nat) (ev : DigiEventCircular),
      events file !! i = Some ev →
      (highest_pixel_coordinates grid file).1 !! i
      = Some (pixel_to_world grid (column ev) (row ev)).1
      ∧ (highest_pixel_coordinates grid file).2 !! i
        = Some (pixel_to_world grid (column ev) (row ev)).2.
Proof.
  rewrite highest_pixel_coordinates_eq. simpl. rewrite !length_map.
  split; [done |]. split; [done |]. intros i ev Hev.
  by rewrite !list_lookup_fmap, Hev.
Qed.



Lemma target_data_failures_witness :
  target_data sample_grid detector_file = Raise (Raised "KeyError")
  ∧ ((∃ name, name ∈ ["energy"; "absx"; "absy"]%string
              ∧ mc_column detector_file name = Raise (Raised "KeyError"))
     ∨ (is_Ok (mc_column detector_file "energy")
        ∧ is_Ok (mc_column detector_file "absx")
        ∧ is_Ok (mc_column detector_file "absy")
        ∧ Raised "KeyError" = ValueError)).
Proof.
  split; [reflexivity |].
  apply (target_data_failures sample_grid detector_file). reflexivity.
Defined.

(** * The total signal of a feature row *)

(** ** float64 arithmetic on integers below 2^53 *)

Lemma iter_xO_value (m : positive) (p : positive) :
  Zpos (Pos.iter xO m p) = Zpos m * 2 ^ Zpos p.
Proof.
  induction p as [|p IH] using Pos.peano_ind.
  - simpl. lia.
  - rewrite Pos.iter_succ, Pos2Z.inj_succ, Z.pow_succ_r by lia.
    rewrite Pos2Z.inj_xO, IH. lia.
Qed.

Lemma digits2_iter_xO (m p : positive) :
  digits2_pos (Pos.iter xO m p) = (digits2_pos m + p)%positive.
Proof.
  induction p as [|p IH] using Pos.peano_ind.
  - simpl. lia.
  - rewrite Pos.iter_succ. simpl. rewrite IH. lia.
Qed.

Lemma digits2_size (m : positive) : digits2_pos m = Pos.size m.
Proof. induction m; simpl; congruence. Qed.

Lemma digits2_bound (m : positive) :
  Zpos m < 2 ^ 53 → Zpos (digits2_pos m) ≤ 53.
Proof.
  intros Hm. rewrite digits2_size.
  pose proof (Pos.size_le m) as Hle.
  assert (2 ^ Zpos (Pos.size m) ≤ Zpos m~0) as H.
  { rewrite <- Pos2Z.inj_pow. lia. }
  destruct (Z_le_gt_dec (Zpos (Pos.size m)) 53) as [|Hgt]; [done |].
  assert (2 ^ 54 ≤ 2 ^ Zpos (Pos.size m)) by (apply Z.pow_le_mono_r; lia).
  lia.
Qed.

Lemma iter_pos_iter {A} (f : A → A) (p : positive) (x : A) :
  SpecFloat.iter_pos f p x = Pos.iter f x p.
Proof.
  revert x. induction p as [p IH|p IH|]; intros x; simpl.
  - rewrite !IH. by rewrite <- !Pos.iter_swap.
  - by rewrite !IH.
  - done.
Qed.

Lemma shr_iter_xO (m p : positive) :
  SpecFloat.iter_pos shr_1 p {| shr_m := Zpos (Pos.iter xO m p); shr_r := false; shr_s := false |}
  = {| shr_m := Zpos m; shr_r := false; shr_s := false |}.
Proof.
  rewrite iter_pos_iter.
  induction p as [|p IH] using Pos.peano_ind.
  - reflexivity.
  - rewrite !Pos.iter_succ, <- Pos.iter_swap. simpl. exact IH.
Qed.

Lemma shiftl_value (q : positive) (n : N) :
  Zpos (Pos.shiftl q n) = Zpos q * 2 ^ Z.of_N n.
Proof.
  destruct n as [|p]; [|apply iter_xO_value].
  change (Zpos q = Zpos q * 2 ^ 0). rewrite Z.pow_0_r. lia.
Qed.

Lemma digits2_shiftl (q : positive) (n : N) :
  Zpos (digits2_pos (Pos.shiftl q n)) = Zpos (digits2_pos q) + Z.of_N n.
Proof.
  destruct n as [|p]; [change (Z.of_N 0) with 0; by rewrite Z.add_0_r |].
  unfold Pos.shiftl. rewrite digits2_iter_xO. simpl Z.of_N. lia.
Qed.

Lemma shr_fexp_canonical (M : positive) (e : Z) :
  Zpos (digits2_pos M) = 53 → -1074 ≤ e →
  shr_fexp prec emax (Zpos M) e loc_Exact
  = ({| shr_m := Zpos M; shr_r := false; shr_s := false |}, e).
Proof.
  intros HM He. unfold shr_fexp, fexp, SpecFloat.emin, prec, emax. simpl Zdigits2.
  rewrite HM. replace (Z.max (53 + e - 53) (3 - 1024 - 53) - e) with 0 by lia.
  reflexivity.
Qed.

Lemma shr_fexp_shifted (M p : positive) (e : Z) :
  Zpos (digits2_pos M) = 53 → -1074 ≤ e →
  shr_fexp prec emax (Zpos (Pos.iter xO M p)) (e - Zpos p) loc_Exact
  = ({| shr_m := Zpos M; shr_r := false; shr_s := false |}, e).
Proof.
  intros HM He. unfold shr_fexp, fexp, SpecFloat.emin, prec, emax. simpl Zdigits2.
  rewrite digits2_iter_xO, Pos2Z.inj_add, HM.
  replace (Z.max (53 + Zpos p + (e - Zpos p) - 53) (3 - 1024 - 53) - (e - Zpos p))
    with (Zpos p) by lia.
  unfold shr, shr_record_of_loc. rewrite shr_iter_xO. f_equal. lia.
Qed.

Lemma binary_round_aux_finish (s : bool) (M : positive) (e : Z) :
  Zpos (digits2_pos M) = 53 → -1074 ≤ e ≤ 971 →
  (let '(mrs'', e'') :=
     shr_fexp prec emax
       (round_nearest_even (shr_m {| shr_m := Zpos M; shr_r := false; shr_s := false |})
          (loc_of_shr_record {| shr_m := Zpos M; shr_r := false; shr_s := false |}))
       e loc_Exact in
   match shr_m mrs'' with
   | 0 => S754_zero s
   | Zpos m => if e'' <=? emax - prec then S754_finite s m e'' else S754_infinity s
   | Zneg _ => S754_nan
   end) = S754_finite s M e.
Proof.
  intros HM He. simpl round_nearest_even.
  rewrite shr_fexp_canonical by (done || lia). simpl shr_m.
  unfold emax, prec. destruct (Z.leb_spec e (1024 - 53)); [done | lia].
Qed.

Lemma binary_round_aux_canonical (s : bool) (M : positive) (e : Z) :
  Zpos (digits2_pos M) = 53 → -1074 ≤ e ≤ 971 →
  binary_round_aux prec emax s (Zpos M) e loc_Exact = S754_finite s M e.
Proof.
  intros HM He. unfold binary_round_aux.
  rewrite shr_fexp_canonical by (done || lia).
  by apply binary_round_aux_finish.
Qed.

Lemma binary_round_aux_shifted (s : bool) (M p : positive) (e : Z) :
  Zpos (digits2_pos M) = 53 → -1074 ≤ e ≤ 971 →
  binary_round_aux prec emax s (Zpos (Pos.iter xO M p)) (e - Zpos p) loc_Exact
  = S754_finite s M e.
Proof.
  intros HM He. unfold binary_round_aux.
  rewrite shr_fexp_shifted by (done || lia).
  by apply binary_round_aux_finish.
Qed.

(** Rounding an integer below 2^53, given with [K] trailing zero bits. *)
Lemma binary_round_exact (s : bool) (q : positive) (K : Z) :
  0 ≤ K → Zpos q < 2 ^ 53 →
  binary_round prec emax s (Pos.shiftl q (Z.to_N K)) (- K)
  = S754_finite s (Pos.shiftl q (Z.to_N (53 - Zpos (digits2_pos q))))
      (Zpos (digits2_pos q) - 53).
Proof.
  intros HK Hq. pose proof (digits2_bound q Hq) as HD.
  set (D := Zpos (digits2_pos q)) in *.
  set (M := Pos.shiftl q (Z.to_N (53 - D))).
  assert (Zpos (digits2_pos M) = 53) as HM
    by (unfold M; rewrite digits2_shiftl; fold D; lia).
  assert (Zpos M = Zpos q * 2 ^ (53 - D)) as HMv
    by (unfold M; rewrite shiftl_value, Z2N.id by lia; done).
  assert (Zpos (Pos.shiftl q (Z.to_N K)) = Zpos q * 2 ^ K) as HKv
    by (rewrite shiftl_value, Z2N.id by lia; done).
  unfold binary_round.
  replace (fexp prec emax (Zpos (digits2_pos (Pos.shiftl q (Z.to_N K))) + - K))
    with (D - 53).
  2:{ rewrite digits2_shiftl, Z2N.id by lia. fold D.
      unfold fexp, SpecFloat.emin, prec, emax. lia. }
  unfold shl_align.
  destruct (D - 53 - - K) as [|p|d] eqn:Hj.
  - assert (Pos.shiftl q (Z.to_N K) = M) as ->.
    { apply Pos2Z.inj. rewrite HKv, HMv. f_equal. f_equal. lia. }
    replace (- K) with (D - 53) by lia.
    apply binary_round_aux_canonical; [done | lia].
  - assert (Pos.shiftl q (Z.to_N K) = Pos.iter xO M p) as ->.
    { apply Pos2Z.inj. rewrite HKv, iter_xO_value, HMv, <- Z.mul_assoc.
      rewrite <- Z.pow_add_r by lia. f_equal. f_equal. lia. }
    replace (- K) with (D - 53 - Zpos p) by lia.
    apply binary_round_aux_shifted; [done | lia].
  - assert (Pos.iter xO (Pos.shiftl q (Z.to_N K)) d = M) as ->.
    { apply Pos2Z.inj. rewrite iter_xO_value, HKv, HMv, <- Z.mul_assoc.
      rewrite <- Z.pow_add_r by lia. f_equal. f_equal. lia. }
    apply binary_round_aux_canonical; [done | lia].
Qed.

Lemma binary_round_exact_int (s : bool) (q : positive) :
  Zpos q < 2 ^ 53 →
  binary_round prec emax s q 0
  = S754_finite s (Pos.shiftl q (Z.to_N (53 - Zpos (digits2_pos q))))
      (Zpos (digits2_pos q) - 53).
Proof. intros Hq. exact (binary_round_exact s q 0 ltac:(lia) Hq). Qed.

Lemma binary_normalize_scaled (z K : Z) :
  0 ≤ K → Z.abs z < 2 ^ 53 →
  binary_normalize prec emax (z * 2 ^ K) (- K) false = float_of_int z.
Proof.
  intros HK Hz. unfold float_of_int.
  destruct z as [|q|q].
  - reflexivity.
  - replace (Zpos q * 2 ^ K) with (Zpos (Pos.shiftl q (Z.to_N K)))
      by (rewrite shiftl_value, Z2N.id by lia; done).
    unfold binary_normalize.
    rewrite (binary_round_exact false q K) by (done || lia).
    by rewrite (binary_round_exact_int false q) by lia.
  - replace (Zneg q * 2 ^ K) with (Zneg (Pos.shiftl q (Z.to_N K))).
    2:{ rewrite <- !Pos2Z.opp_pos, shiftl_value, Z2N.id by lia. lia. }
    unfold binary_normalize.
    rewrite (binary_round_exact true q K) by (done || lia).
    by rewrite (binary_round_exact_int true q) by lia.
Qed.

Lemma float_of_int_finite (z : Z) :
  z ≠ 0 → Z.abs z < 2 ^ 53 →
  ∃ m e, float_of_int z = S754_finite (z <? 0) m e
         ∧ e ≤ 0
         ∧ cond_Zopp (z <? 0) (Zpos m) = z * 2 ^ (- e).
Proof.
  intros Hz Hb. unfold float_of_int.
  destruct z as [|q|q]; [done | |]; unfold binary_normalize;
    rewrite (binary_round_exact_int _ q) by lia;
    pose proof (digits2_bound q ltac:(lia)) as HD;
    eexists _, _; (split; [reflexivity |]); (split; [lia |]).
  - change (Zpos (Pos.shiftl q (Z.to_N (53 - Zpos (digits2_pos q))))
            = Zpos q * 2 ^ (- (Zpos (digits2_pos q) - 53))).
    rewrite shiftl_value, Z2N.id by lia. f_equal. f_equal. lia.
  - change (- Zpos (Pos.shiftl q (Z.to_N (53 - Zpos (digits2_pos q))))
            = Zneg q * 2 ^ (- (Zpos (digits2_pos q) - 53))).
    rewrite shiftl_value, Z2N.id by lia.
    replace (- (Zpos (digits2_pos q) - 53)) with (53 - Zpos (digits2_pos q)) by lia.
    lia.
Qed.

Lemma shl_align_value (m : positive) (ex ez : Z) :
  ez ≤ ex → Zpos (fst (shl_align m ex ez)) = Zpos m * 2 ^ (ex - ez).
Proof.
  intros Hle. unfold shl_align.
  destruct (ez - ex) as [|p|d] eqn:Hd; try lia; simpl fst.
  - replace (ex - ez) with 0 by lia. rewrite Z.pow_0_r. lia.
  - rewrite iter_xO_value. f_equal. f_equal. lia.
Qed.

(** float64 addition of two integers is exact when the operands and the
    sum are below 2^53 in magnitude. *)
Lemma float_add_exact (a b : Z) :
  Z.abs a < 2 ^ 53 → Z.abs b < 2 ^ 53 → Z.abs (a + b) < 2 ^ 53 →
  float_add (float_of_int a) (float_of_int b) = float_of_int (a + b).
Proof.
  intros Ha Hb Hab.
  destruct (decide (a = 0)) as [->|Ha0].
  { destruct (decide (b = 0)) as [->|Hb0]; [reflexivity |]. rewrite Z.add_0_l.
    destruct (float_of_int_finite b Hb0 Hb) as (m & e & -> & _). reflexivity. }
  destruct (decide (b = 0)) as [->|Hb0].
  { rewrite Z.add_0_r.
    destruct (float_of_int_finite a Ha0 Ha) as (m & e & -> & _). reflexivity. }
  destruct (float_of_int_finite a Ha0 Ha) as (ma & ea & -> & Hea & Hma).
  destruct (float_of_int_finite b Hb0 Hb) as (mb & eb & -> & Heb & Hmb).
  unfold float_add, SFadd.
  set (ez := Z.min ea eb).
  assert (ez ≤ ea ∧ ez ≤ eb ∧ ez ≤ 0) as (Hza & Hzb & Hz0) by (unfold ez; lia).
  assert (∀ s m e z, e ≤ 0 → ez ≤ e → cond_Zopp s (Zpos m) = z * 2 ^ (- e) →
          cond_Zopp s (Zpos (fst (shl_align m e ez))) = z * 2 ^ (- ez)) as Halign.
  { intros s m e z He Hze Hm. rewrite shl_align_value by done.
    replace (- ez) with (- e + (e - ez)) by lia.
    rewrite Z.pow_add_r, Z.mul_assoc, <- Hm by lia.
    unfold cond_Zopp. destruct s; ring. }
  rewrite (Halign _ _ _ a Hea Hza Hma), (Halign _ _ _ b Heb Hzb Hmb).
  rewrite <- Z.mul_add_distr_r.
  replace ez with (- - ez) at 2 by lia.
  apply binary_normalize_scaled; [lia | done].
Qed.

Lemma float_sum_from (l : list Z) (acc : Z) :
  Z.abs acc + sum_Z (map Z.abs l) < 2 ^ 53 →
  foldl float_add (float_of_int acc) (map float_of_int l) = float_of_int (acc + sum_Z l).
Proof.
  revert acc. induction l as [|v l IH]; intros acc Hb.
  - simpl. by rewrite Z.add_0_r.
  - simpl in *.
    assert (0 ≤ sum_Z (map Z.abs l)) as Hpos.
    { clear. induction l as [|w l IH]; simpl; lia. }
    rewrite float_add_exact by lia. rewrite IH by lia. f_equal. lia.
Qed.

Lemma float_sum_exact (l : list Z) :
  sum_Z (map Z.abs l) < 2 ^ 53 →
  float_sum (map float_of_int l) = float_of_int (sum_Z l).
Proof. intros Hb. apply (float_sum_from l 0). simpl. lia. Qed.

Lemma sum_Z_Permutation (l l' : list Z) : l ≡ₚ l' → sum_Z l = sum_Z l'.
Proof. induction 1; simpl; lia. Qed.

Lemma sum_Z_abs_bound (l : list Z) (B : Z) :
  Forall (λ v, Z.abs v < B) l → sum_Z (map Z.abs l) ≤ Z.of_nat (length l) * B.
Proof. induction 1 as [|v l Hv _ IH]; simpl length; simpl sum_Z; [lia | nia]. Qed.

(** ** The gather, by position *)

Lemma array_position_channel {A} (raw : list A) (ch : Z) :
  valid_index raw ch →
  0 ≤ array_position raw ch < Z.of_nat (length raw).
Proof.
  unfold valid_index, array_position. destruct (Z.ltb_spec ch 0); lia.
Qed.

Lemma ndarray_getitem_position {A} (raw : list A) (ch : Z) :
  valid_index raw ch →
  ndarray_getitem raw ch = ndarray_getitem raw (array_position raw ch).
Proof.
  intros Hvalid. unfold array_position.
  destruct (Z.ltb_spec ch 0); [|done].
  apply ndarray_getitem_wrap. unfold valid_index in Hvalid. lia.
Qed.

Lemma ndarray_take_position {A} (raw : list A) (chans : list Z) :
  Forall (valid_index raw) chans →
  ndarray_take raw chans = ndarray_take raw (map (array_position raw) chans).
Proof.
  unfold ndarray_take. induction 1 as [|ch chans Hch _ IH]; [done |].
  by rewrite map_cons, !mapM_cons, IH, <- ndarray_getitem_position.
Qed.

Lemma ndarray_take_elements {A} (raw : list A) (chans : list Z) (taken : list A) :
  ndarray_take raw chans = Ok taken → Forall (λ v, v ∈ raw) taken.
Proof.
  unfold ndarray_take. rewrite mapM_Ok. intros H.
  induction H as [|ch v chans taken Hv _ IH]; constructor; [|done].
  unfold ndarray_getitem in Hv. destruct (_ && _); [|done].
  destruct (raw !! _) as [w|] eqn:Hw; [|done]. injection Hv as <-.
  by eapply list_elem_of_lookup_2.
Qed.

Lemma event_signals (grid : HexagonalGrid) (event : DigiEventCircular)
    (pha' : list Z) :
  reordered_pha grid event = Ok pha' →
  ∃ entries, event_features grid event = Ok entries
             ∧ length entries = length pha'
             ∧ map signal entries = map float_of_int pha'.
Proof.
  intros Hpha. eexists. split; [by apply event_features_unfold |].
  pose proof (reordered_pha_length grid event _ Hpha) as Hlen.
  split; [unfold zip3; rewrite !length_zip_with, !length_map; lia |].
  unfold zip3, signal.
  rewrite <- (map_map fst fst), !fst_zip; [done | |];
    rewrite ?length_zip_with, !length_map; lia.
Qed.

(** C6 (amended). For every event whose 7 coordinates map to channels that
    NumPy accepts for its signal array and that address 7 pairwise
    distinct positions of it, and whose signal values are all below 2^50
    in magnitude, the feature row is emitted, and the float64 sum of its 7
    signals, added in the order of the row or in any other order, is the
    sum of the raw per-channel signal array restricted to those 7
    positions. *)
Theorem feature_row_preserves_total
    (grid : HexagonalGrid) (event : DigiEventCircular) :
  length (adc_channel_order grid event) = 7%nat →
  Forall (valid_index (pha event)) (adc_channel_order grid event) →
  NoDup (map (array_position (pha event)) (adc_channel_order grid event)) →
  Forall (λ v, Z.abs v < 2 ^ 50) (pha event) →
  ∃ entries,
    event_features grid event = Ok entries
    ∧ length entries = 7%nat
    ∧ ∀ signals,
        signals ≡ₚ map signal entries →
        float_sum signals
        = float_of_int
            (restricted_sum (pha event)
               (map (array_position (pha event)) (adc_channel_order grid event))).
Proof.
  intros Hseven Hvalid Hdistinct Hsmall.
  destruct (ndarray_take_sum (pha event)
              (map (array_position (pha event)) (adc_channel_order grid event)))
    as (pha' & Hpha & Hsum); [done | |].
  { apply Forall_fmap. eapply Forall_impl; [exact Hvalid |].
    intros ch. apply array_position_channel. }
  rewrite <- ndarray_take_position in Hpha by done.
  destruct (event_signals grid event pha' Hpha) as (entries & Hentries & Hlen & Hsignals).
  assert (length pha' = 7%nat) as Hseven'.
  { apply mapM_Ok, Forall2_length in Hpha. congruence. }
  exists entries. split; [done |]. split; [congruence |].
  intros signals Hperm. rewrite Hsignals in Hperm.
  apply Permutation_map_inv in Hperm as (order & -> & Horder).
  assert (Forall (λ v, Z.abs v < 2 ^ 50) order) as Hbound.
  { rewrite <- Horder. apply ndarray_take_elements in Hpha.
    rewrite Forall_forall in Hsmall. eapply Forall_impl; [exact Hpha |].
    intros v Hv. by apply Hsmall. }
  rewrite float_sum_exact.
  - by rewrite <- (sum_Z_Permutation _ _ Horder), Hsum.
  - pose proof (sum_Z_abs_bound order _ Hbound) as Hle.
    rewrite <- (Permutation_length Horder), Hseven' in Hle.
    change (2 ^ 50) with 1125899906842624 in Hle.
    change (2 ^ 53) with 9007199254740992. lia.
Qed.

Lemma feature_row_preserves_total_witness :
  ∃ entries,
    event_features sample_grid interior_event = Ok entries
    ∧ length entries = 7%nat
    ∧ float_sum (map signal entries) = float_of_int 280.
Proof.
  assert (Hvalid : Forall (valid_index (pha interior_event))
                     (adc_channel_order sample_grid interior_event))
    by (unfold valid_index; vm_compute; repeat constructor; discriminate).
  assert (Hdistinct : NoDup (map (array_position (pha interior_event))
                               (adc_channel_order sample_grid interior_event)))
    by (apply (bool_decide_unpack _); vm_compute; exact I).
  assert (Hsmall : Forall (λ v, Z.abs v < 2 ^ 50) (pha interior_event))
    by (repeat constructor).
  destruct (feature_row_preserves_total sample_grid interior_event
              eq_refl Hvalid Hdistinct Hsmall) as (entries & Hentries & Hlen & Hsum).
  exists entries. split; [exact Hentries |]. split; [exact Hlen |].
  apply (Hsum (map signal entries)). reflexivity.
Defined.

(** C6, as stated, fails in two ways.  On a grid that gives pixel (5, 4)
    the channel -3, the seven channels of the event at (5, 5) are pairwise
    distinct numbers, but -3 and 4 address the same entry of the signal
    array: the row counts that entry twice and its signals add up to 310,
    while the entries of the raw array at the touched positions add up to
    260.  And with a signal of 2^53 next to two signals of 1, on seven
    distinct channels, the float64 sum of the row's signals is 2^53 while
    the raw values add up to 2^53 + 2. *)
Lemma feature_row_total_not_preserved :
  (length (adc_channel_order aliasing_grid interior_event) = 7%nat
   ∧ NoDup (adc_channel_order aliasing_grid interior_event)
   ∧ ∃ entries,
       event_features aliasing_grid interior_event = Ok entries
       ∧ float_sum (map signal entries) = float_of_int 310
       ∧ restricted_sum (pha interior_event)
           (adc_channel_order aliasing_grid interior_event) = 260
       ∧ restricted_sum (pha interior_event)
           (map (array_position (pha interior_event))
                (adc_channel_order aliasing_grid interior_event)) = 260
       ∧ float_of_int 310 ≠ float_of_int 260)
  ∧ (length (adc_channel_order sample_grid large_signal_event) = 7%nat
     ∧ NoDup (adc_channel_order sample_grid large_signal_event)
     ∧ Forall (channel_of (pha large_signal_event))
              (adc_channel_order sample_grid large_signal_event)
     ∧ ∃ entries,
         event_features sample_grid large_signal_event = Ok entries
         ∧ float_sum (map signal entries) = float_of_int (2 ^ 53)
         ∧ restricted_sum (pha large_signal_event)
             (adc_channel_order sample_grid large_signal_event) = 2 ^ 53 + 2
         ∧ float_of_int (2 ^ 53) ≠ float_of_int (2 ^ 53 + 2)).
Proof.
  split.
  - split; [reflexivity |].
    split; [apply (bool_decide_unpack _); vm_compute; exact I |].
    eexists. split; [vm_compute; reflexivity |].
    split; [vm_compute; reflexivity |]. split; [vm_compute; reflexivity |].
    split; [vm_compute; reflexivity |]. vm_compute. discriminate.
  - split; [reflexivity |].
    split; [apply (bool_decide_unpack _); vm_compute; exact I |].
    split; [unfold channel_of; vm_compute; repeat constructor; discriminate |].
    eexists. split; [vm_compute; reflexivity |].
    split; [vm_compute; reflexivity |]. split; [vm_compute; reflexivity |].
    vm_compute. discriminate.
Qed.

(** * Feature rows and target rows of the same stream *)

Section DatasetsCorrespond.
Variable grid : HexagonalGrid.
Variable file : DigiInputFileCircular.
Variables energy x_hit y_hit : list float.
Hypothesis energy_read : mc_column file "energy" = Ok energy.
Hypothesis x_hit_read : mc_column file "absx" = Ok x_hit.
Hypothesis y_hit_read : mc_column file "absy" = Ok y_hit.
Hypothesis energy_aligned : length energy = length (events file).
Hypothesis x_hit_aligned : length x_hit = length (events file).
Hypothesis y_hit_aligned : length y_hit = length (events file).

Lemma input_events_data_Ok (features : list (list feature_entry)) :
  input_events_data grid file = Ok features →
  Forall2 (λ ev entries, event_features grid ev = Ok entries) (events file) features.
Proof.
  unfold input_events_data, mbind, result_bind.
  destruct (mapM (event_features grid) (events file)) as [rows|e] eqn:Hrows; [|done].
  intros Hfeatures. apply np_array_Ok in Hfeatures. subst features.
  by apply mapM_Ok.
Qed.

Lemma target_data_Ok_events (targets : list target_row) :
  target_data grid file = Ok targets → events file ≠ [].
Proof.
  intros Htargets Hempty. rewrite Hempty in *.
  apply nil_length_inv in energy_aligned, x_hit_aligned, y_hit_aligned.
  revert Htargets. unfold target_data.
  rewrite energy_read, x_hit_read, y_hit_read, Hempty. subst. done.
Qed.

(** C8. For every event stream whose Monte Carlo columns hold one entry per
    event, the feature dataset and the target dataset built from it have
    the same number of rows, one per event, and row [i] of the target
    dataset and row [i] of the feature dataset both belong to event [i]
    of the stream; neither dataset leaves out an event that the other one
    has.  Both datasets are built when the stream has at least one event,
    every channel index is one NumPy accepts, and the grid reports equally
    many neighbours for every event. *)
Theorem feature_and_target_rows_correspond :
  (∀ (features : list (list feature_entry)) (targets : list target_row),
     input_events_data grid file = Ok features →
     target_data grid file = Ok targets →
     length features = length targets
     ∧ length targets = length (events file)
     ∧ ∀ (i : nat) (ev : DigiEventCircular),
         events file !! i = Some ev →
         (∃ entries, features !! i = Some entries
                     ∧ event_features grid ev = Ok entries)
         ∧ (∃ e x y, energy !! i = Some e ∧ x_hit !! i = Some x ∧ y_hit !! i = Some y
                     ∧ targets !! i
                       = Some (e, float_sub x (center_world grid ev).1,
                                  float_sub y (center_world grid ev).2)))
  ∧ (∀ n : nat,
       events file ≠ [] →
       Forall (λ ev, Forall (valid_index (pha ev)) (adc_channel_order grid ev))
              (events file) →
       Forall (λ ev, length (neighbors grid (column ev) (row ev)) = n) (events file) →
       is_Ok (input_events_data grid file) ∧ is_Ok (target_data grid file)).
Proof.
  split.
  - intros features targets Hfeatures Htargets.
    pose proof (target_data_Ok_events targets Htargets) as Hne.
    apply input_events_data_Ok in Hfeatures.
    rewrite (target_data_aligned grid file energy x_hit y_hit) in Htargets by done.
    injection Htargets as <-.
    assert (length (zip3 energy
                      (zip_with float_sub x_hit
                         (map (λ ev, (center_world grid ev).1) (events file)))
                      (zip_with float_sub y_hit
                         (map (λ ev, (center_world grid ev).2) (events file))))
            = length (events file)) as Hlen
      by (unfold zip3; rewrite !length_zip_with, !length_map; lia).
    split; [rewrite Hlen; symmetry; by eapply Forall2_length |].
    split; [exact Hlen |].
    intros i ev Hev. split.
    + destruct (Forall2_lookup_l _ _ _ _ _ Hfeatures Hev) as (entries & ? & ?). eauto.
    + pose proof (lookup_lt_Some _ _ _ Hev) as Hi.
      destruct (lookup_lt_is_Some_2 energy i) as [e He]; [lia |].
      destruct (lookup_lt_is_Some_2 x_hit i) as [x Hx]; [lia |].
      destruct (lookup_lt_is_Some_2 y_hit i) as [y Hy]; [lia |].
      exists e, x, y. repeat (split; [done |]).
      apply lookup_zip3; [done | |]; apply lookup_zip_with_Some;
        eexists _, _; (split; [reflexivity |]); (split; [done |]);
        by rewrite list_lookup_fmap, Hev.
  - intros n Hne Hvalid Hcrown.
    destruct (datasets_built_and_aligned grid file energy x_hit y_hit
                energy_read x_hit_read y_hit_read
                energy_aligned x_hit_aligned y_hit_aligned n Hne Hvalid Hcrown)
      as (features & targets & Hf & Ht & _).
    split; by eexists.
Qed.
End DatasetsCorrespond.

Lemma feature_and_target_rows_correspond_witness :
  ∃ features targets,
    input_events_data sample_grid simulated_file = Ok features
    ∧ target_data sample_grid simulated_file = Ok targets
    ∧ length features = length targets
    ∧ length targets = length (events simulated_file).
Proof.
  destruct (input_events_data sample_grid simulated_file) as [features|e] eqn:Hf;
    [|vm_compute in Hf; discriminate].
  destruct (target_data sample_grid simulated_file) as [targets|e] eqn:Ht;
    [|vm_compute in Ht; discriminate].
  destruct (feature_and_target_rows_correspond sample_grid simulated_file
              (map float_of_int [5900; 5900])
              (map float_of_int [11; 9]) (map float_of_int [-15; -12])
              eq_refl eq_refl eq_refl eq_refl eq_refl eq_refl) as [Hrows _].
  destruct (Hrows features targets Hf Ht) as (Hsame & Hcount & _).
  exists features, targets. split; [reflexivity |]. split; [reflexivity |].
  split; [exact Hsame | exact Hcount].
Defined.
